(** * import_jira_csv_to_plane: a shallow embedding and its properties

    The development follows [import_jira_csv_to_plane.py].  Pure helpers
    (text normalisation, the mapping tables, [parse_labels],
    [infer_state_group]) are plain functions.  Code that talks to the
    Plane server runs in a small state-and-exception monad whose state
    holds the server, the trace of requests issued so far and the lines
    printed so far. *)

From Stdlib Require Import String Ascii ZArith NArith QArith List Bool Lia.
From stdpp Require Import gmap strings list fin_maps.

(** ** Python text

    A [str] is embedded as a [string] of 7-bit characters: [py_isspace]
    and [py_lower] are Python's [str.isspace] and [str.lower] on the code
    points below 128, and leave the other characters alone. *)

Module Py.

Definition py_isspace (c : ascii) : bool :=
  let n := N_of_ascii c in
  ((9 <=? n)%N && (n <=? 13)%N) || ((28 <=? n)%N && (n <=? 32)%N).

Definition py_lower_char (c : ascii) : ascii :=
  let n := N_of_ascii c in
  if ((65 <=? n)%N && (n <=? 90)%N) then ascii_of_N (n + 32) else c.

(** [s.lower()] *)
Fixpoint lower (s : string) : string :=
  match s with
  | EmptyString => EmptyString
  | String c s' => String (py_lower_char c) (lower s')
  end.

(** [s.lstrip()] *)
Fixpoint lstrip (s : string) : string :=
  match s with
  | EmptyString => EmptyString
  | String c s' => if py_isspace c then lstrip s' else s
  end.

(** [s.rstrip()] *)
Fixpoint rstrip (s : string) : string :=
  match s with
  | EmptyString => EmptyString
  | String c s' =>
      match rstrip s' with
      | EmptyString => if py_isspace c then EmptyString else String c EmptyString
      | r => String c r
      end
  end.

(** [s.strip()] *)
Definition strip (s : string) : string := rstrip (lstrip s).

(** Truth value of a [str]: the empty text is false. *)
Definition truthy (s : string) : bool :=
  match s with EmptyString => false | _ => true end.

(** [x or ''] for an [x] that is a [str] or [None]. *)
Definition or_empty (x : option string) : string :=
  match x with
  | Some s => s
  | None => EmptyString
  end.

(** [x or y] for [x], [y] that are a [str] or [None]. *)
Definition py_or (x y : option string) : option string :=
  match x with
  | Some s => if truthy s then x else y
  | None => y
  end.

(** [c in s] for a character [c]. *)
Fixpoint mem_char (c : ascii) (s : string) : bool :=
  match s with
  | EmptyString => false
  | String d s' => if Ascii.eqb c d then true else mem_char c s'
  end.

(** [s.replace(old, new)] where [old] is one character long. *)
Fixpoint replace_char (old : ascii) (new : string) (s : string) : string :=
  match s with
  | EmptyString => EmptyString
  | String c s' =>
      if Ascii.eqb c old then new +:+ replace_char old new s'
      else String c (replace_char old new s')
  end.

(** The scan of [s.split(sep)] for a non-empty [sep]: the occurrences of
    [sep] are found from the left and do not overlap; [skip] counts the
    characters of a found occurrence that are still to be passed. *)
Fixpoint split_scan (sep : string) (skip : nat) (s : string) : list string :=
  match s with
  | EmptyString => [EmptyString]
  | String c s' =>
      match skip with
      | S k => split_scan sep k s'
      | O =>
          if String.prefix sep s
          then EmptyString :: split_scan sep (String.length sep - 1) s'
          else
            match split_scan sep 0 s' with
            | p :: ps => String c p :: ps
            | [] => [String c EmptyString]
            end
      end
  end.

(** Exceptions.  [HttpFailure] stands for what [get] and [post] raise
    (the [RuntimeError] of a status of 400 and above or of a body that is
    not JSON, or an exception of the transport);  [OverflowError] is what
    [time.sleep] raises, its message being left out since it changes with
    the version of the interpreter;  [SystemExit] is the only one that
    [except Exception] lets through. *)
Inductive http_error : Type :=
  | BadStatus (code : Z) (text : string)
  | BadBody (detail : string)
  | Transport (detail : string).

Inductive exn : Type :=
  | HttpFailure (e : http_error)
  | ValueError (msg : string)
  | UnboundLocalError (var : string)
  | TypeError (msg : string)
  | OverflowError
  | CouldNotResolve (want ws_slug : string)
  | SystemExit (code : Z).

Definition is_Exception (e : exn) : bool :=
  match e with
  | SystemExit _ => false
  | _ => true
  end.

(** [s.split(sep)]: an empty separator is a [ValueError]. *)
Definition split (s sep : string) : exn + list string :=
  match sep with
  | EmptyString => inl (ValueError "empty separator")
  | _ => inr (split_scan sep 0 s)
  end.

End Py.

Import Py.

(** ** Plane lookups: the key of a cache entry *)

(** [(name or '').strip().lower()], the normalisation the script applies
    wherever it compares names. *)
Definition norm_key (name : option string) : string :=
  lower (strip (or_empty name)).

(** ** State-group inference *)

Definition BACKLOG_NAMES : list string :=
  ["backlog"; "to do"; "todo"; "unstarted"; "selected for development"].
Definition STARTED_NAMES : list string :=
  ["in progress"; "started"; "in review"; "doing"].
Definition COMPLETED_NAMES : list string :=
  ["done"; "completed"; "closed"; "resolved"].
Definition CANCELLED_NAMES : list string :=
  ["cancelled"; "canceled"; "wontfix"; "won't fix"].

(** [x in (a, b, ...)] *)
Definition in_tuple (x : string) (t : list string) : bool :=
  existsb (String.eqb x) t.

Definition infer_state_group (state_name : option string) : string :=
  let name := norm_key state_name in
  if in_tuple name BACKLOG_NAMES then "backlog"
  else if in_tuple name STARTED_NAMES then "started"
  else if in_tuple name COMPLETED_NAMES then "completed"
  else if in_tuple name CANCELLED_NAMES then "cancelled"
  else "backlog".

(** ** CSV parsing and mapping *)

Definition DEFAULT_LABEL_SEP : string := ";".

Definition DEFAULT_PRIORITY_MAP : gmap string string :=
  <["Lowest" := "low"]> (<["Low" := "low"]> (<["Medium" := "medium"]>
  (<["High" := "high"]> (<["Highest" := "urgent"]> ∅)))).

Definition DEFAULT_STATUS_TO_STATE : gmap string string :=
  <["Closed" := "Completed"]> (<["Done" := "Completed"]>
  (<["In Review" := "Started"]> (<["In Progress" := "Started"]>
  (<["Selected for Development" := "Unstarted"]>
  (<["To Do" := "Backlog"]> ∅))))).

Definition map_priority (jira_priority : option string) : option string :=
  match jira_priority with
  | None => None
  | Some p => if truthy p then DEFAULT_PRIORITY_MAP !! strip p else None
  end.

Definition map_state (jira_status : option string) : option string :=
  match jira_status with
  | None => None
  | Some s => if truthy s then DEFAULT_STATUS_TO_STATE !! strip s else None
  end.

Definition parse_labels (raw : option string) (sep : string)
  : exn + list string :=
  match raw with
  | None => inr []
  | Some r =>
      if truthy r then
        match split (replace_char "," sep r) sep with
        | inl e => inl e
        | inr pieces => inr (List.filter truthy (List.map strip pieces))
        end
      else inr []
  end.


(** The pattern [^[0-9a-f-]{8,}$] under [re.match]: a longest run of
    characters of the class from the start, of length 8 at least, followed
    by the end of the text or by one final newline ([$] matches there
    too). *)
Definition is_hex_hyphen (c : ascii) : bool :=
  let n := N_of_ascii c in
  ((48 <=? n)%N && (n <=? 57)%N) || ((97 <=? n)%N && (n <=? 102)%N)
  || (n =? 45)%N.

Fixpoint span_hex_hyphen (s : string) : nat * string :=
  match s with
  | EmptyString => (0, EmptyString)
  | String c s' =>
      if is_hex_hyphen c
      then let '(n, rest) := span_hex_hyphen s' in (S n, rest)
      else (0, s)
  end.

Definition newline : string := String (ascii_of_nat 10) EmptyString.

Definition looks_like_uuid (s : string) : bool :=
  let '(n, rest) := span_hex_hyphen s in
  (8 <=? n) && (String.eqb rest EmptyString || String.eqb rest newline).

(** ** JSON values *)

(** An entity of the server (a label, a state, a project, a created issue)
    is a JSON object whose fields hold text or [null]. *)
Abbreviation Obj := (gmap string (option string)).

(** [o.get(k)] *)
Definition obj_get (o : Obj) (k : string) : option string :=
  match o !! k with
  | Some v => v
  | None => None
  end.

(** Truth value of [x] where [x] is a [dict] or [None]: an empty [dict] is
    false. *)
Definition obj_truthy (x : option Obj) : bool :=
  match x with
  | Some o => negb (bool_decide (o = ∅))
  | None => false
  end.

(** Truth value of [x] where [x] is a [str] or [None]. *)
Definition opt_truthy (x : option string) : bool :=
  match x with
  | Some s => truthy s
  | None => false
  end.

(** The body of a request: a JSON object whose fields hold text or a
    list of text ([label_ids]). *)
Inductive jval : Type :=
  | JStr (s : string)
  | JList (l : list string).

Abbreviation Json := (gmap string jval).

(** ** Requests, printed lines and the state of a run *)

Abbreviation Headers := (gmap string string).

Inductive Event : Type :=
  | EGet (url : string) (headers : Headers)
  | EPost (url : string) (headers : Headers) (json : Json)
  | ESleep (seconds : Q).

Inductive Line : Type :=
  | FatalEnv (name : string)
  | WarnProject (e : exn)
  | FatalColumn (col : string) (present : list string)
  | SkipLine (i : nat)
  | DryState (name : string)
  | OfflineState (name : string)
  | DryLabel (lbl : string)
  | OfflineLabel (lbl : string)
  | DryRow (i : nat) (payload : Json)
  | OkLine (i : nat) (shown : string + Obj)
  | FailLine (i : nat) (e : exn)
  | DoneLine (created_count skipped failures : nat).

(** The server behind [requests]: the world it lives in and what a GET and
    a POST do to it.  A GET answers with the sequence of objects that
    [data.get("results", data)] evaluates to, a POST with the object in the
    body of the response; either fails as [get] and [post] raise. *)
Record Server (W : Type) : Type := {
  srv_get : string -> Headers -> W -> W * (http_error + list Obj);
  srv_post : string -> Headers -> Json -> W -> W * (http_error + Obj)
}.
Arguments srv_get {W} _ _ _ _.
Arguments srv_post {W} _ _ _ _ _.

Record St (W : Type) : Type := mkSt {
  world : W;
  trace : list Event;
  out : list Line
}.
Arguments mkSt {W} _ _ _.
Arguments world {W} _.
Arguments trace {W} _.
Arguments out {W} _.

(** A computation: it may change the state, and returns or raises. *)
Definition M (W A : Type) : Type := St W -> St W * (exn + A).

Definition ret {W A} (a : A) : M W A := fun s => (s, inr a).

Definition bind {W A B} (c : M W A) (k : A -> M W B) : M W B :=
  fun s =>
    match c s with
    | (s', inr a) => k a s'
    | (s', inl e) => (s', inl e)
    end.

Definition raise {W A} (e : exn) : M W A := fun s => (s, inl e).

(** [try: c  except Exception as e: h e] *)
Definition try_except {W A} (c : M W A) (h : exn -> M W A) : M W A :=
  fun s =>
    match c s with
    | (s', inl e) => if is_Exception e then h e s' else (s', inl e)
    | r => r
    end.

Definition lift {W A} (r : exn + A) : M W A := fun s => (s, r).

Definition print {W} (l : Line) : M W unit :=
  fun s => (mkSt (world s) (trace s) (out s ++ [l]), inr tt).

Declare Scope py_scope.
Delimit Scope py_scope with py.
Notation "x <- c ;; k" := (bind c (fun x => k))
  (at level 100, c at next level, right associativity) : py_scope.
Notation "c ;; k" := (bind c (fun _ => k))
  (at level 100, right associativity) : py_scope.
Open Scope py_scope.

(** The command line, the rows of the CSV file as [csv.DictReader] hands
    them over, and the local variables of the loop of [main]. *)
Record Args : Type := {
  delimiter : string;
  label_sep : string;
  dry_run : bool;
  offline : bool;
  no_create_labels : bool;
  no_create_states : bool;
  rate_limit : Q
}.

Abbreviation Row := (gmap string string).

Record Reader : Type := {
  fieldnames : option (list string);
  rows : list Row
}.

Record Locals : Type := mkLocals {
  label_cache : gmap string Obj;
  state_cache : gmap string Obj;
  created_count : nat;
  skipped : nat;
  failures : nat
}.

Section Plane.

Context {W : Type} (srv : Server W).

(** ** Config & helpers *)

(** [get(url, headers)] and [post(url, headers, json)]: the request is
    recorded, the server answers. *)
Definition get (url : string) (headers : Headers) : M W (list Obj) :=
  fun s =>
    let '(w', r) := srv_get srv url headers (world s) in
    (mkSt w' (trace s ++ [EGet url headers]) (out s),
     match r with
     | inl e => inl (HttpFailure e)
     | inr data => inr data
     end).

Definition post (url : string) (headers : Headers) (json : Json) : M W Obj :=
  fun s =>
    let '(w', r) := srv_post srv url headers json (world s) in
    (mkSt w' (trace s ++ [EPost url headers json]) (out s),
     match r with
     | inl e => inl (HttpFailure e)
     | inr o => inr o
     end).

(** [time.sleep(seconds)], the float [seconds] being taken as a rational
    (an infinite float behaves as any value that is too large).  The length
    is first turned into a count of nanoseconds; when that count does not
    fit a signed 64-bit integer, [OverflowError] is raised.  A negative
    length is then refused with [ValueError].  In both cases there is no
    pause. *)
Definition sleep_overflows (seconds : Q) : bool :=
  negb (Qle_bool (- (9223372036854775808 # 1)) (seconds * (1000000000 # 1))
        && Qle_bool (seconds * (1000000000 # 1)) (9223372036854775807 # 1)).

Definition sleep (seconds : Q) : M W unit :=
  fun s =>
    if sleep_overflows seconds
    then (s, inl OverflowError)
    else if Qlt_le_dec seconds 0
    then (s, inl (ValueError "sleep length must be non-negative"))
    else (mkSt (world s) (trace s ++ [ESleep seconds]) (out s), inr tt).

(** [env(name)] against the process environment [environ]. *)
Definition env (environ : gmap string string) (name : string) : M W string :=
  let val := strip (default EmptyString (environ !! name)) in
  if truthy val then ret val
  else (print (FatalEnv name) ;; raise (SystemExit 2)).

Definition plane_headers (api_key : string) : Headers :=
  <["Accept" := "application/json"]>
  (<["Content-Type" := "application/json"]> (<["x-api-key" := api_key]> ∅)).

(** ** Plane lookups *)

Definition labels_url (base_url ws_slug project_id : string) : string :=
  base_url +:+ "/api/v1/workspaces/" +:+ ws_slug +:+ "/projects/"
  +:+ project_id +:+ "/labels/".

Definition states_url (base_url ws_slug project_id : string) : string :=
  base_url +:+ "/api/v1/workspaces/" +:+ ws_slug +:+ "/projects/"
  +:+ project_id +:+ "/states/".

Definition issues_url (base_url ws_slug project_id : string) : string :=
  base_url +:+ "/api/v1/workspaces/" +:+ ws_slug +:+ "/projects/"
  +:+ project_id +:+ "/issues/".

Definition projects_url (base_url ws_slug : string) : string :=
  base_url +:+ "/api/v1/workspaces/" +:+ ws_slug +:+ "/projects/".

(** [{ (item.get("name") or '').strip().lower(): item for item in data }]:
    of two items with the same key the later one stays. *)
Definition by_name (data : list Obj) : gmap string Obj :=
  fold_left (fun m item => <[norm_key (obj_get item "name") := item]> m)
            data ∅.

Definition list_labels (base_url ws_slug project_id : string)
    (headers : Headers) : M W (gmap string Obj) :=
  data <- get (labels_url base_url ws_slug project_id) headers ;;
  ret (by_name data).

Definition ensure_label (base_url ws_slug project_id : string)
    (headers : Headers) (name : string) : M W Obj :=
  existing <- list_labels base_url ws_slug project_id headers ;;
  let key := norm_key (Some name) in
  match existing !! key with
  | Some o => ret o
  | None =>
      post (labels_url base_url ws_slug project_id) headers
           {[ "name" := JStr name ]}
  end.

Definition list_states (base_url ws_slug project_id : string)
    (headers : Headers) : M W (gmap string Obj) :=
  data <- get (states_url base_url ws_slug project_id) headers ;;
  ret (by_name data).

Definition ensure_state (base_url ws_slug project_id : string)
    (headers : Headers) (name : string) : M W Obj :=
  existing <- list_states base_url ws_slug project_id headers ;;
  let key := norm_key (Some name) in
  match existing !! key with
  | Some o => ret o
  | None =>
      let url := states_url base_url ws_slug project_id in
      let payload : Json := <["color" := JStr "#9ca3af"]> {[ "name" := JStr name ]} in
      try_except (post url headers payload)
        (fun e =>
           let grp := infer_state_group (Some name) in
           let payload := <["group" := JStr grp]> payload in
           try_except (post url headers payload) (fun e2 => raise e2))
  end.

Definition create_issue (base_url ws_slug project_id : string)
    (headers : Headers) (payload : Json) : M W Obj :=
  post (issues_url base_url ws_slug project_id) headers payload.

(** ** Main *)

(** The [for proj in results] loop of [resolve_project_id]. *)
Fixpoint scan_projects (want_norm : string) (results : list Obj)
  : option string :=
  match results with
  | [] => None
  | proj :: rest =>
      let pid := py_or (obj_get proj "id") (obj_get proj "project_id") in
      let ident := norm_key (obj_get proj "identifier") in
      let name := norm_key (obj_get proj "name") in
      let slug := norm_key (obj_get proj "slug") in
      if in_tuple want_norm [ident; name; slug] && opt_truthy pid
      then pid
      else scan_projects want_norm rest
  end.

Definition resolve_project_id (base_url ws_slug : string)
    (headers : Headers) (want : string) : M W string :=
  let url := projects_url base_url ws_slug in
  results <- get url headers ;;
  let want_norm := norm_key (Some want) in
  if looks_like_uuid want_norm then ret want
  else
    match scan_projects want_norm results with
    | Some pid => ret pid
    | None => raise (CouldNotResolve want ws_slug)
    end.

(** Reading a local variable that may not have been assigned yet. *)
Definition read_local {A} (name : string) (v : option A) : M W A :=
  match v with
  | Some x => ret x
  | None => raise (UnboundLocalError name)
  end.

(** [x.get("id")] when [x and x.get("id")] holds. *)
Definition usable_id (x : option Obj) : option string :=
  match x with
  | Some o =>
      if obj_truthy x && opt_truthy (obj_get o "id") then obj_get o "id"
      else None
  | None => None
  end.

(** [{"name": name, "id": None}] *)
Definition placeholder (name : string) : Obj :=
  <["id" := None]> {[ "name" := Some name ]}.

(** Resolve/ensure state id: the state object and the state cache after
    the block under [if target_state_name]. *)
Definition resolve_state (args : Args) (base_url ws_slug project_id : string)
    (headers : Headers) (target_state_name : string)
    (state_cache : gmap string Obj)
  : M W (option Obj * gmap string Obj) :=
  let state_key := lower (strip target_state_name) in
  let state_obj := state_cache !! state_key in
  if negb (obj_truthy state_obj) && negb (no_create_states args) then
    if dry_run args || offline args then
      (print (DryState target_state_name) ;;
       ret (Some (placeholder target_state_name), state_cache))
    else if offline args then
      (print (OfflineState target_state_name) ;;
       ret (Some (placeholder target_state_name), state_cache))
    else
      (state_obj <- ensure_state base_url ws_slug project_id headers
                                 target_state_name ;;
       state_cache <- list_states base_url ws_slug project_id headers ;;
       ret (Some state_obj, state_cache))
  else ret (state_obj, state_cache).

(** One round of [for lbl in labels]: the label object and the label
    cache after it. *)
Definition resolve_label (args : Args) (base_url ws_slug project_id : string)
    (headers : Headers) (lbl : string) (label_cache : gmap string Obj)
  : M W (option Obj * gmap string Obj) :=
  let key := lower (strip lbl) in
  let lbl_obj := label_cache !! key in
  if negb (obj_truthy lbl_obj) && negb (no_create_labels args) then
    if dry_run args || offline args then
      (print (DryLabel lbl) ;;
       ret (Some (placeholder lbl), label_cache))
    else if offline args then
      (print (OfflineLabel lbl) ;;
       ret (Some (placeholder lbl), label_cache))
    else
      (lbl_obj <- ensure_label base_url ws_slug project_id headers lbl ;;
       label_cache <- list_labels base_url ws_slug project_id headers ;;
       ret (Some lbl_obj, label_cache))
  else ret (lbl_obj, label_cache).

(** [for lbl in labels: ...], from [label_ids] and [label_cache]. *)
Fixpoint labels_loop (args : Args) (base_url ws_slug project_id : string)
    (headers : Headers) (labels : list string)
    (label_ids : list string) (label_cache : gmap string Obj)
  : M W (list string * gmap string Obj) :=
  match labels with
  | [] => ret (label_ids, label_cache)
  | lbl :: rest =>
      r <- resolve_label args base_url ws_slug project_id headers lbl
                         label_cache ;;
      let '(lbl_obj, label_cache) := r in
      let label_ids :=
        match usable_id lbl_obj with
        | Some id => label_ids ++ [id]
        | None => label_ids
        end in
      labels_loop args base_url ws_slug project_id headers rest
                  label_ids label_cache
  end.

(** The body of the loop of [main] from [description = ...] to
    [payload["label_ids"] = label_ids]: the payload of the row and the two
    caches. *)
Definition build_payload (args : Args) (base_url ws_slug project_id : string)
    (headers : Headers) (row : Row) (name : string) (v : Locals)
  : M W (Json * Locals) :=
  let description := or_empty (row !! "Description") in
  let jira_labels_raw := or_empty (py_or (row !! "Labels") (row !! "labels")) in
  let jira_status := or_empty (py_or (row !! "Status") (row !! "status")) in
  let jira_priority :=
    or_empty (py_or (row !! "Priority") (row !! "priority")) in
  labels <- lift (parse_labels (Some jira_labels_raw) (label_sep args)) ;;
  let target_state_name := map_state (Some jira_status) in
  let priority := map_priority (Some jira_priority) in
  let payload : Json := {[ "name" := JStr name ]} in
  let payload :=
    if truthy description then <["description" := JStr description]> payload
    else payload in
  let payload :=
    match priority with
    | Some p => if truthy p then <["priority" := JStr p]> payload else payload
    | None => payload
    end in
  r <- match target_state_name with
       | Some t =>
           if truthy t then
             (r <- resolve_state args base_url ws_slug project_id headers t
                                 (state_cache v) ;;
              let '(state_obj, state_cache) := r in
              ret (match usable_id state_obj with
                   | Some id => <["state_id" := JStr id]> payload
                   | None => payload
                   end, state_cache))
           else ret (payload, state_cache v)
       | None => ret (payload, state_cache v)
       end ;;
  let '(payload, state_cache) := r in
  r <- labels_loop args base_url ws_slug project_id headers labels []
                   (label_cache v) ;;
  let '(label_ids, label_cache) := r in
  let payload :=
    match label_ids with
    | [] => payload
    | _ => <["label_ids" := JList label_ids]> payload
    end in
  ret (payload,
       mkLocals label_cache state_cache
                (created_count v) (skipped v) (failures v)).

(** The body of [for i, row in enumerate(reader, start=1)].  The [try]
    holds [create_issue], [created_count += 1], the [OK] line and the
    pause; its handler runs on the local variables as they are when the
    exception is raised: what [create_issue] raises is handled before
    [created_count] has changed, what is raised later (by [time.sleep]) is
    handled after it has. *)
Definition process_row (args : Args) (base_url ws_slug project_id : string)
    (headers : Headers) (i : nat) (row : Row) (v : Locals) : M W Locals :=
  let name := strip (or_empty (row !! "Summary")) in
  if negb (truthy name) then
    (print (SkipLine i) ;;
     ret (mkLocals (label_cache v) (state_cache v)
                   (created_count v) (skipped v + 1) (failures v)))
  else
    r <- build_payload args base_url ws_slug project_id headers row name v ;;
    let '(payload, v) := r in
    if dry_run args || offline args then
      (print (DryRow i payload) ;;
       ret (mkLocals (label_cache v) (state_cache v)
                     (created_count v + 1) (skipped v) (failures v)))
    else
      try_except
        (resp <- create_issue base_url ws_slug project_id headers payload ;;
         let v := mkLocals (label_cache v) (state_cache v)
                           (created_count v + 1) (skipped v) (failures v) in
         try_except
           (print (OkLine i (match obj_get resp "id" with
                             | Some id =>
                                 if truthy id then inl id else inr resp
                             | None => inr resp
                             end)) ;;
            (if Qlt_le_dec 0 (rate_limit args) then sleep (rate_limit args)
             else ret tt) ;;
            ret v)
           (fun e =>
              let v := mkLocals (label_cache v) (state_cache v)
                                (created_count v) (skipped v)
                                (failures v + 1) in
              print (FailLine i e) ;;
              ret v))
        (fun e =>
           let v := mkLocals (label_cache v) (state_cache v)
                             (created_count v) (skipped v) (failures v + 1) in
           print (FailLine i e) ;;
           ret v).

Fixpoint rows_loop (args : Args) (base_url ws_slug project_id : string)
    (headers : Headers) (i : nat) (rows : list Row) (v : Locals)
  : M W Locals :=
  match rows with
  | [] => ret v
  | row :: rest =>
      v <- process_row args base_url ws_slug project_id headers i row v ;;
      rows_loop args base_url ws_slug project_id headers (S i) rest v
  end.

(** [main()], given the environment after [load_dotenv()], the parsed
    command line and the opened CSV file.  [headers] is assigned after the
    call of [resolve_project_id] that mentions it, so that call raises
    before it starts and the warning is printed. *)
Definition main (environ : gmap string string) (args : Args)
    (reader : Reader) : M W unit :=
  let headers : option Headers := None in
  base_url <- env environ "PLANE_BASE_URL" ;;
  ws_slug <- env environ "PLANE_WORKSPACE_SLUG" ;;
  project_id <- env environ "PLANE_PROJECT_ID" ;;
  project_id <-
    try_except
      (h <- read_local "headers" headers ;;
       resolve_project_id base_url ws_slug h project_id)
      (fun e => print (WarnProject e) ;; ret project_id) ;;
  api_key <- env environ "PLANE_API_KEY" ;;
  let headers := plane_headers api_key in
  label_cache <- list_labels base_url ws_slug project_id headers ;;
  state_cache <- list_states base_url ws_slug project_id headers ;;
  let v := mkLocals label_cache state_cache 0 0 0 in
  match fieldnames reader with
  | None => raise (TypeError "argument of type 'NoneType' is not iterable")
  | Some present =>
      (if in_tuple "Summary" present then ret tt
       else (print (FatalColumn "Summary" present) ;; raise (SystemExit 2))) ;;
      v <- rows_loop args base_url ws_slug project_id headers 1
                     (rows reader) v ;;
      print (DoneLine (created_count v) (skipped v) (failures v))
  end.

End Plane.

(** ** What a run did *)

Definition is_post (e : Event) : bool :=
  match e with
  | EPost _ _ _ => true
  | _ => false
  end.

(** The creation calls in a trace. *)
Definition posts (t : list Event) : list Event := List.filter is_post t.

(** [s'] comes after [s] and no POST was issued in between. *)
Definition no_post_since {W} (s s' : St W) : Prop :=
  exists t, trace s' = trace s ++ t /\ posts t = [].

(** [c] never issues a POST. *)
Definition quiet {W A} (c : M W A) : Prop :=
  forall s, no_post_since s (fst (c s)).

(** [c] prints and then returns a value that satisfies [P], or raises an
    exception that satisfies [E]; it leaves the server alone. *)
Definition prints_only {W A} (c : M W A) (P : A -> Prop) (E : exn -> Prop)
  : Prop :=
  forall s, exists l,
    fst (c s) = mkSt (world s) (trace s) (out s ++ l) /\
    match snd (c s) with
    | inr a => P a
    | inl e => E e
    end.

(** [c] prints at most: the server is not contacted at all. *)
Definition offline_only {W A} (c : M W A) : Prop :=
  forall s, world (fst (c s)) = world s /\ trace (fst (c s)) = trace s.

(** Rows that carry a name. *)
Definition has_name (row : Row) : bool :=
  truthy (strip (or_empty (row !! "Summary"))).

(** The counters before and after a piece of a run: left alone, moved by
    one row, moved by a sequence of rows. *)
Definition same_counters (v v' : Locals) : Prop :=
  created_count v' = created_count v /\ skipped v' = skipped v /\
  failures v' = failures v.

Definition counted (row : Row) (v v' : Locals) : Prop :=
  created_count v' = created_count v + (if has_name row then 1 else 0) /\
  skipped v' = skipped v + (if has_name row then 0 else 1) /\
  failures v' = failures v.

Definition tallied (rows : list Row) (v v' : Locals) : Prop :=
  created_count v' = created_count v + length (List.filter has_name rows) /\
  skipped v' =
    skipped v + length (List.filter (fun r => negb (has_name r)) rows) /\
  failures v' = failures v.

(** The text under [k] in the body of a request. *)
Definition json_text (json : Json) (k : string) : option string :=
  match json !! k with
  | Some (JStr s) => Some s
  | _ => None
  end.

(** The spec's opaque-identifier shape: 8 characters at least, each a
    hexadecimal digit (of a lower-cased text) or a hyphen. *)
Fixpoint all_hex_hyphen (t : string) : bool :=
  match t with
  | EmptyString => true
  | String c t' => is_hex_hyphen c && all_hex_hyphen t'
  end.

Definition hex_hyphen_token (t : string) : Prop :=
  8 <= String.length t /\ all_hex_hyphen t = true.

(** A listing collaborator that shows a created entity from its creation
    on: the listing at [url] answers with the collection [coll], which a
    POST that succeeds extends by the entity it answers with, named as
    posted, and which a POST that fails leaves alone. *)
Definition lists_what_it_creates {W} (srv : Server W) (url : string)
    (headers : Headers) (coll : W -> list Obj) : Prop :=
  (forall w, exists w',
      srv_get srv url headers w = (w', inr (coll w)) /\ coll w' = coll w) /\
  (forall json w,
      match srv_post srv url headers json w with
      | (w', inr o) =>
          coll w' = coll w ++ [o] /\
          obj_get o "name" = json_text json "name"
      | (w', inl _) => coll w' = coll w
      end).

(** [sep.join(pieces)] *)
Fixpoint join (sep : string) (pieces : list string) : string :=
  match pieces with
  | [] => EmptyString
  | [p] => p
  | p :: rest => p +:+ sep +:+ join sep rest
  end.

(** No character of [p] occurs in [sep]. *)
Fixpoint avoids (sep : string) (p : string) : bool :=
  match p with
  | EmptyString => true
  | String c p' => negb (mem_char c sep) && avoids sep p'
  end.

(** [s[:1].isspace()] and [s[-1:].isspace()]. *)
Definition starts_with_space (s : string) : bool :=
  match s with
  | EmptyString => false
  | String c _ => py_isspace c
  end.

Fixpoint ends_with_space (s : string) : bool :=
  match s with
  | EmptyString => false
  | String c s' =>
      match s' with
      | EmptyString => py_isspace c
      | _ => ends_with_space s'
      end
  end.

(** A text with no white space at either end. *)
Definition trimmed (s : string) : bool :=
  negb (starts_with_space s) && negb (ends_with_space s).

(** [sep] starts at none of the first [n] positions of [s]. *)
Fixpoint absent_before (sep s : string) (n : nat) : bool :=
  match n with
  | O => true
  | S k =>
      negb (String.prefix sep s)
      && match s with
         | EmptyString => true
         | String _ s' => absent_before sep s' k
         end
  end.

(** A piece that [parse_labels] hands back as it is: not empty, trimmed,
    and free of commas and of the characters of the separator. *)
Definition plain_piece (sep p : string) : Prop :=
  truthy p = true /\ strip p = p /\ avoids sep p = true /\
  mem_char "," p = false.


(** ** A mock server

    One collection of entities serves every URL.  A POST whose body the
    server accepts appends an entity with the posted name and a fresh
    identifier, and answers with it; a listing answers with the collection
    when the server is up. *)
Module Mock.

Record World : Type := mkWorld {
  entities : list Obj;
  next_id : nat
}.

Fixpoint fresh_id (n : nat) : string :=
  match n with
  | O => "id"
  | S k => String "+" (fresh_id k)
  end.

Definition created (json : Json) (n : nat) : Obj :=
  <["id" := Some (fresh_id n)]> {[ "name" := json_text json "name" ]}.

Definition server (up : bool) (accepts : Json -> bool) : Server World := {|
  srv_get := fun _ _ w =>
    (w, if up then inr (entities w) else inl (Transport "connection refused"));
  srv_post := fun _ _ json w =>
    if accepts json then
      let o := created json (next_id w) in
      (mkWorld (entities w ++ [o]) (S (next_id w)), inr o)
    else (w, inl (BadStatus 400 "bad request"))
|}.

Definition accepts_all (json : Json) : bool := true.
Definition accepts_none (json : Json) : bool := false.
(** A server that wants the group of a state. *)
Definition wants_group (json : Json) : bool :=
  match json !! "group" with
  | Some _ => true
  | None => false
  end.

Definition start : St World := mkSt (mkWorld [] 0) [] [].

Definition live : Args := {|
  delimiter := ","; label_sep := ";"; dry_run := false; offline := false;
  no_create_labels := false; no_create_states := false; rate_limit := 0
|}.

Definition dry : Args := {|
  delimiter := ","; label_sep := ";"; dry_run := true; offline := false;
  no_create_labels := false; no_create_states := false; rate_limit := 0
|}.

Definition environ : gmap string string :=
  <["PLANE_API_KEY" := "key"]> (<["PLANE_PROJECT_ID" := "proj"]>
  (<["PLANE_WORKSPACE_SLUG" := "ws"]>
  (<["PLANE_BASE_URL" := "https://plane.test"]> ∅))).

End Mock.


(** ** Further vocabulary *)

(** Every character of [s] is white space. *)
Fixpoint all_space (s : string) : bool :=
  match s with
  | EmptyString => true
  | String c s' => py_isspace c && all_space s'
  end.

(** [s[n:]] *)
Fixpoint drop (n : nat) (s : string) : string :=
  match n, s with
  | O, _ => s
  | S k, EmptyString => EmptyString
  | S k, String _ s' => drop k s'
  end.

(** [proj.get("id") or proj.get("project_id")] *)
Definition project_id_of (proj : Obj) : option string :=
  py_or (obj_get proj "id") (obj_get proj "project_id").

(** The project is one that [resolve_project_id] returns for [want_norm]:
    its identifier, name or slug is [want_norm] once normalised, and it
    has an id. *)
Definition project_matches (want_norm : string) (proj : Obj) : bool :=
  in_tuple want_norm
    [norm_key (obj_get proj "identifier"); norm_key (obj_get proj "name");
     norm_key (obj_get proj "slug")]
  && opt_truthy (project_id_of proj).

(** What [c] adds to the trace and to the output: requests that satisfy
    [Pe] and lines that satisfy [Pl], after what was there. *)
Definition emits {W A} (c : M W A) (Pe : Event -> Prop) (Pl : Line -> Prop)
  : Prop :=
  forall s, exists t l,
    trace (fst (c s)) = trace s ++ t /\ out (fst (c s)) = out s ++ l /\
    Forall Pe t /\ Forall Pl l.

Definition is_offline_line (l : Line) : bool :=
  match l with
  | OfflineState _ | OfflineLabel _ => true
  | _ => false
  end.

Definition any_event : Event -> Prop := fun _ => True.
Definition any_line : Line -> Prop := fun _ => True.
Definition not_offline : Line -> Prop := fun l => is_offline_line l = false.

(** A request of a row that creates nothing but issues: a POST to [url]
    or the pause after it. *)
Definition issue_traffic (url : string) (e : Event) : Prop :=
  match e with
  | EPost u _ _ => u = url
  | ESleep _ => True
  | EGet _ _ => False
  end.

(** The address a request goes to; a pause goes nowhere. *)
Definition request_url (e : Event) : option string :=
  match e with
  | EGet url _ | EPost url _ _ => Some url
  | ESleep _ => None
  end.

(** The requests of a run on one project: the labels and the states are
    listed and created, issues are created, all with the same headers, and
    pauses lie between. *)
Definition run_traffic (base_url ws_slug project_id : string)
    (headers : Headers) (e : Event) : Prop :=
  match e with
  | EGet url h =>
      h = headers /\
      (url = labels_url base_url ws_slug project_id \/
       url = states_url base_url ws_slug project_id)
  | EPost url h _ =>
      h = headers /\
      (url = labels_url base_url ws_slug project_id \/
       url = states_url base_url ws_slug project_id \/
       url = issues_url base_url ws_slug project_id)
  | ESleep _ => True
  end.

(** Two command lines that differ at most in which of [--dry-run] and
    [--offline] is given, and in the delimiter of the CSV file. *)
Definition same_mode (args args' : Args) : Prop :=
  dry_run args || offline args = dry_run args' || offline args' /\
  label_sep args = label_sep args' /\
  no_create_labels args = no_create_labels args' /\
  no_create_states args = no_create_states args' /\
  rate_limit args = rate_limit args'.

(** The variable is set to something else than white space. *)
Definition env_present (environ : gmap string string) (name : string) : bool :=
  truthy (strip (default EmptyString (environ !! name))).



(** * Properties *)

(** ** Text *)

Section TextFacts.

Lemma truthy_true (s : string) : truthy s = true <-> s <> EmptyString.
Proof. destruct s; simpl; split; congruence. Qed.

Lemma append_nil_l (b : string) : EmptyString +:+ b = b.
Proof. reflexivity. Qed.

Lemma append_cons (c : ascii) (a b : string) :
  String c a +:+ b = String c (a +:+ b).
Proof. reflexivity. Qed.

Lemma append_empty_r (s : string) : s +:+ EmptyString = s.
Proof.
  induction s as [|c s IH]; [reflexivity|]. now rewrite append_cons, IH.
Qed.

Lemma append_assoc (a b c : string) : (a +:+ b) +:+ c = a +:+ (b +:+ c).
Proof.
  induction a as [|d a IH]; [reflexivity|]. now rewrite !append_cons, IH.
Qed.

Lemma rstrip_cons (c : ascii) (s : string) :
  rstrip (String c s) =
  match rstrip s with
  | EmptyString => if py_isspace c then EmptyString else String c EmptyString
  | r => String c r
  end.
Proof. reflexivity. Qed.

Lemma lstrip_shape (s : string) :
  lstrip s = EmptyString \/
  exists c t, lstrip s = String c t /\ py_isspace c = false.
Proof.
  induction s as [|a s IH]; simpl.
  - now left.
  - destruct (py_isspace a) eqn:Ea; [exact IH | right; eauto].
Qed.

Lemma rstrip_idem (s : string) : rstrip (rstrip s) = rstrip s.
Proof.
  induction s as [|a s IH]; [reflexivity|].
  rewrite rstrip_cons. destruct (rstrip s) as [|b r] eqn:E.
  - destruct (py_isspace a) eqn:Ea; [reflexivity|].
    rewrite rstrip_cons. simpl. now rewrite Ea.
  - rewrite rstrip_cons, IH. reflexivity.
Qed.

Lemma rstrip_keeps_head (c : ascii) (t : string) :
  py_isspace c = false -> exists r, rstrip (String c t) = String c r.
Proof.
  intros Hc. rewrite rstrip_cons. destruct (rstrip t); rewrite ?Hc; eauto.
Qed.

Lemma strip_idem (s : string) : strip (strip s) = strip s.
Proof.
  unfold strip. destruct (lstrip_shape s) as [E|(c & t & E & Hc)]; rewrite E.
  - reflexivity.
  - destruct (rstrip_keeps_head c t Hc) as [r Hr]. rewrite Hr.
    simpl lstrip. rewrite Hc, <- Hr. apply rstrip_idem.
Qed.

Lemma mem_char_app (c : ascii) (a b : string) :
  mem_char c (a +:+ b) = mem_char c a || mem_char c b.
Proof.
  induction a as [|d a IH]; [reflexivity|].
  rewrite append_cons. simpl. destruct (Ascii.eqb c d); simpl; auto.
Qed.

Lemma replace_char_absent (old : ascii) (new s : string) :
  mem_char old s = false -> replace_char old new s = s.
Proof.
  induction s as [|c s IH]; simpl; [reflexivity|].
  rewrite (Ascii.eqb_sym c old). destruct (Ascii.eqb old c); [discriminate|].
  intros H. now rewrite IH.
Qed.

Lemma replace_char_app (old : ascii) (new a b : string) :
  replace_char old new (a +:+ b) =
  replace_char old new a +:+ replace_char old new b.
Proof.
  induction a as [|c a IH]; [reflexivity|].
  rewrite append_cons. simpl.
  destruct (Ascii.eqb c old); rewrite IH;
    [now rewrite append_assoc | now rewrite append_cons].
Qed.

Lemma mem_char_replace (old : ascii) (new s : string) :
  mem_char old new = false -> mem_char old (replace_char old new s) = false.
Proof.
  intros Hn. induction s as [|c s IH]; simpl; [reflexivity|].
  destruct (Ascii.eqb c old) eqn:E.
  - now rewrite mem_char_app, Hn, IH.
  - simpl. rewrite Ascii.eqb_sym, E. exact IH.
Qed.

Lemma truthy_replace (old : ascii) (new s : string) :
  truthy new = true -> truthy s = true ->
  truthy (replace_char old new s) = true.
Proof.
  intros Hn Hs. destruct s as [|c s]; [discriminate|]. simpl.
  destruct (Ascii.eqb c old); [|reflexivity].
  destruct new; [discriminate | now rewrite append_cons].
Qed.

Lemma prefix_app (a b : string) : String.prefix a (a +:+ b) = true.
Proof.
  induction a as [|c a IH]; [now destruct b|].
  rewrite append_cons. simpl.
  destruct (ascii_dec c c); [exact IH | congruence].
Qed.

Lemma prefix_other_head (a c : ascii) (sep' rest : string) :
  a <> c -> String.prefix (String a sep') (String c rest) = false.
Proof. intros H. simpl. destruct (ascii_dec a c); congruence. Qed.

Lemma split_scan_skip (sep x rest : string) :
  split_scan sep (String.length x) (x +:+ rest) = split_scan sep 0 rest.
Proof.
  induction x as [|c x IH]; [reflexivity|].
  rewrite append_cons. simpl. exact IH.
Qed.

Lemma avoids_head (a c : ascii) (sep' p : string) :
  avoids (String a sep') (String c p) = true ->
  a <> c /\ avoids (String a sep') p = true.
Proof.
  simpl. intros H. apply andb_prop in H as [H1 H2]. split; [|exact H2].
  destruct (Ascii.eqb c a) eqn:E; [discriminate|].
  apply Ascii.eqb_neq in E. congruence.
Qed.

Lemma split_scan_piece (sep p rest : string) :
  truthy sep = true -> avoids sep p = true ->
  split_scan sep 0 (p +:+ sep +:+ rest) = p :: split_scan sep 0 rest.
Proof.
  destruct sep as [|a sep']; [discriminate|]. intros _.
  induction p as [|c p IH]; intros Hp.
  - change (EmptyString +:+ String a sep' +:+ rest)
      with (String a sep' +:+ rest).
    change (String a sep' +:+ rest) with (String a (sep' +:+ rest)) at 1.
    cbn [split_scan].
    change (String a (sep' +:+ rest)) with (String a sep' +:+ rest).
    rewrite prefix_app. f_equal.
    replace (String.length (String a sep') - 1) with (String.length sep')
      by (simpl; lia).
    apply split_scan_skip.
  - apply avoids_head in Hp as [Hac Hp].
    change (String c p +:+ String a sep' +:+ rest)
      with (String c (p +:+ String a sep' +:+ rest)).
    cbn [split_scan]. rewrite prefix_other_head by exact Hac.
    now rewrite IH.
Qed.

Lemma split_scan_last (sep p : string) :
  truthy sep = true -> avoids sep p = true -> split_scan sep 0 p = [p].
Proof.
  destruct sep as [|a sep']; [discriminate|]. intros _.
  induction p as [|c p IH]; intros Hp; [reflexivity|].
  apply avoids_head in Hp as [Hac Hp].
  cbn [split_scan]. rewrite prefix_other_head by exact Hac.
  now rewrite IH.
Qed.

Lemma split_scan_join (sep : string) (pieces : list string) :
  truthy sep = true -> pieces <> [] ->
  Forall (fun p => avoids sep p = true) pieces ->
  split_scan sep 0 (join sep pieces) = pieces.
Proof.
  intros Hsep. induction pieces as [|p rest IH]; [congruence|].
  intros _ Hall. inversion Hall as [|? ? Hp Hrest]; subst.
  destruct rest as [|q rest].
  - simpl. now apply split_scan_last.
  - change (join sep (p :: q :: rest)) with (p +:+ sep +:+ join sep (q :: rest)).
    rewrite split_scan_piece by assumption. f_equal.
    apply IH; [congruence | assumption].
Qed.

Lemma replace_comma_join (sep : string) (pieces : list string) :
  Forall (fun p => mem_char "," p = false) pieces ->
  replace_char "," sep (join "," pieces) = join sep pieces.
Proof.
  induction pieces as [|p rest IH]; intros Hall; [reflexivity|].
  inversion Hall as [|? ? Hp Hrest]; subst.
  destruct rest as [|q rest].
  - simpl. now apply replace_char_absent.
  - change (join "," (p :: q :: rest)) with (p +:+ "," +:+ join "," (q :: rest)).
    change (join sep (p :: q :: rest)) with (p +:+ sep +:+ join sep (q :: rest)).
    rewrite !replace_char_app, IH by assumption.
    rewrite (replace_char_absent _ _ p) by assumption.
    simpl. now rewrite append_empty_r.
Qed.

Lemma mem_char_join (c : ascii) (sep : string) (pieces : list string) :
  mem_char c sep = false ->
  Forall (fun p => mem_char c p = false) pieces ->
  mem_char c (join sep pieces) = false.
Proof.
  intros Hsep. induction pieces as [|p rest IH]; intros Hall; [reflexivity|].
  inversion Hall as [|? ? Hp Hrest]; subst.
  destruct rest as [|q rest]; [exact Hp|].
  change (join sep (p :: q :: rest)) with (p +:+ sep +:+ join sep (q :: rest)).
  now rewrite !mem_char_app, Hp, Hsep, IH.
Qed.

Lemma truthy_join (sep : string) (pieces : list string) :
  pieces <> [] -> Forall (fun p => truthy p = true) pieces ->
  truthy (join sep pieces) = true.
Proof.
  destruct pieces as [|p rest]; [congruence|]. intros _ Hall.
  inversion Hall as [|? ? Hp _]; subst.
  destruct p; [discriminate|]. now destruct rest.
Qed.

Lemma keep_plain_pieces (sep : string) (pieces : list string) :
  Forall (plain_piece sep) pieces ->
  List.filter truthy (List.map strip pieces) = pieces.
Proof.
  induction 1 as [|p rest (Ht & Hs & _) _ IH]; [reflexivity|].
  simpl. now rewrite Hs, Ht, IH.
Qed.

Lemma lstrip_all_space (p : string) :
  all_space p = true -> forall s, lstrip (p +:+ s) = lstrip s.
Proof.
  induction p as [|c p IH]; intros Hp s; [reflexivity|].
  simpl in Hp. apply andb_prop in Hp as [Hc Hp].
  rewrite append_cons. simpl. rewrite Hc. now apply IH.
Qed.

Lemma rstrip_all_space (q : string) :
  all_space q = true -> rstrip q = EmptyString.
Proof.
  induction q as [|c q IH]; intros Hq; [reflexivity|].
  simpl in Hq. apply andb_prop in Hq as [Hc Hq].
  now rewrite rstrip_cons, IH, Hc.
Qed.

Lemma rstrip_app_space (s q : string) :
  all_space q = true -> rstrip (s +:+ q) = rstrip s.
Proof.
  intros Hq. induction s as [|c s IH].
  - rewrite append_nil_l. now apply rstrip_all_space.
  - now rewrite append_cons, !rstrip_cons, IH.
Qed.

Lemma strip_app_space (s q : string) :
  all_space q = true -> strip (s +:+ q) = strip s.
Proof.
  intros Hq. unfold strip. induction s as [|c s IH].
  - rewrite append_nil_l.
    rewrite <- (append_empty_r q), lstrip_all_space by exact Hq.
    reflexivity.
  - rewrite append_cons. simpl. destruct (py_isspace c); [exact IH|].
    rewrite <- append_cons. now apply rstrip_app_space.
Qed.

Lemma strip_padded (p s q : string) :
  all_space p = true -> all_space q = true ->
  strip (p +:+ s +:+ q) = strip s.
Proof.
  intros Hp Hq. unfold strip. rewrite lstrip_all_space by exact Hp.
  now apply strip_app_space.
Qed.

Lemma strip_trimmed (s : string) : trimmed s = true -> strip s = s.
Proof.
  unfold trimmed, strip. intros H. apply andb_prop in H as [Hs He].
  assert (El : lstrip s = s).
  { destruct s as [|c s]; [reflexivity|]. simpl in Hs. simpl.
    now destruct (py_isspace c). }
  rewrite El. clear Hs El. induction s as [|c s IH]; [reflexivity|].
  rewrite rstrip_cons. destruct s as [|d s].
  - simpl in He. simpl. now destruct (py_isspace c).
  - change (ends_with_space (String c (String d s)))
      with (ends_with_space (String d s)) in He.
    now rewrite (IH He).
Qed.

Lemma append_is_empty (a b : string) :
  a +:+ b = EmptyString -> a = EmptyString /\ b = EmptyString.
Proof.
  destruct a as [|c a]; [now rewrite append_nil_l|].
  rewrite append_cons. discriminate.
Qed.

Lemma truthy_app_r (a b : string) :
  truthy b = true -> truthy (a +:+ b) = true.
Proof.
  destruct a as [|c a]; [now rewrite append_nil_l|].
  now rewrite append_cons.
Qed.

Lemma truthy_app_l (a b : string) :
  truthy a = true -> truthy (a +:+ b) = true.
Proof. destruct a; [discriminate | now rewrite append_cons]. Qed.

Lemma split_scan_whole (sep s : string) :
  truthy sep = true ->
  absent_before sep s (String.length s) = true -> split_scan sep 0 s = [s].
Proof.
  intros Hsep. induction s as [|c s IH]; [reflexivity|].
  cbn [String.length absent_before]. intros H.
  apply andb_prop in H as [Hp Hs]. apply negb_true_iff in Hp.
  cbn [split_scan]. now rewrite Hp, (IH Hs).
Qed.

Lemma split_scan_first (sep p rest : string) :
  truthy sep = true ->
  absent_before sep (p +:+ sep +:+ rest) (String.length p) = true ->
  split_scan sep 0 (p +:+ sep +:+ rest) = p :: split_scan sep 0 rest.
Proof.
  intros Hsep. induction p as [|c p IH].
  - intros _. now apply split_scan_piece.
  - rewrite append_cons. cbn [String.length absent_before]. intros H.
    apply andb_prop in H as [Hp Hs]. apply negb_true_iff in Hp.
    cbn [split_scan]. now rewrite Hp, (IH Hs).
Qed.

End TextFacts.

(** ** [parse_labels] *)

Lemma parse_labels_nonempty (raw sep : string) :
  truthy raw = true -> truthy sep = true ->
  parse_labels (Some raw) sep =
  inr (List.filter truthy
         (List.map strip (split_scan sep 0 (replace_char "," sep raw)))).
Proof.
  intros Hraw Hsep. unfold parse_labels, split. rewrite Hraw.
  destruct sep; [discriminate | reflexivity].
Qed.

Lemma parse_labels_pieces (raw : option string) (sep : string)
    (labels : list string) :
  parse_labels raw sep = inr labels ->
  Forall (fun p => truthy p = true /\ strip p = p) labels.
Proof.
  unfold parse_labels. destruct raw as [r|]; [|intros [= <-]; constructor].
  destruct (truthy r); [|intros [= <-]; constructor].
  destruct (split _ sep) as [e|pieces]; [discriminate|]. intros [= <-].
  apply List.Forall_forall. intros p Hp.
  apply List.filter_In in Hp as [Hp Ht]. split; [exact Ht|].
  apply List.in_map_iff in Hp as (x & <- & _). apply strip_idem.
Qed.

Lemma parse_labels_comma (sep a b : string) :
  truthy sep = true -> mem_char "," sep = false ->
  parse_labels (Some (a +:+ "," +:+ b)) sep =
  parse_labels (Some (a +:+ sep +:+ b)) sep.
Proof.
  intros Hsep Hcomma.
  rewrite !parse_labels_nonempty
    by (try apply truthy_app_r, truthy_app_l; easy).
  rewrite !replace_char_app, (replace_char_absent _ _ sep) by exact Hcomma.
  simpl replace_char at 2. now rewrite append_empty_r.
Qed.

Lemma keep_padded (p core q : string) :
  all_space p = true -> all_space q = true -> trimmed core = true ->
  List.filter truthy [strip (p +:+ core +:+ q)] = List.filter truthy [core].
Proof.
  intros Hp Hq Hcore.
  now rewrite strip_padded, strip_trimmed by assumption.
Qed.

Lemma parse_labels_one (sep p core q : string) :
  truthy sep = true ->
  all_space p = true -> all_space q = true -> trimmed core = true ->
  mem_char "," (p +:+ core +:+ q) = false ->
  absent_before sep (p +:+ core +:+ q)
                (String.length (p +:+ core +:+ q)) = true ->
  parse_labels (Some (p +:+ core +:+ q)) sep = inr (List.filter truthy [core]).
Proof.
  intros Hsep Hp Hq Hcore Hcomma Habs.
  destruct (truthy (p +:+ core +:+ q)) eqn:Hraw.
  - rewrite parse_labels_nonempty by assumption.
    rewrite replace_char_absent by exact Hcomma.
    rewrite split_scan_whole by assumption.
    cbn [List.map]. now rewrite keep_padded.
  - destruct (p +:+ core +:+ q) eqn:E; [|discriminate].
    apply append_is_empty in E as [_ E].
    apply append_is_empty in E as [-> _]. reflexivity.
Qed.

Lemma parse_labels_more (sep p core q rest : string) (labels : list string) :
  truthy sep = true -> mem_char "," sep = false ->
  all_space p = true -> all_space q = true -> trimmed core = true ->
  mem_char "," (p +:+ core +:+ q) = false -> mem_char "," rest = false ->
  absent_before sep ((p +:+ core +:+ q) +:+ sep +:+ rest)
                (String.length (p +:+ core +:+ q)) = true ->
  parse_labels (Some rest) sep = inr labels ->
  parse_labels (Some ((p +:+ core +:+ q) +:+ sep +:+ rest)) sep =
  inr (List.filter truthy [core] ++ labels).
Proof.
  intros Hsep Hcs Hp Hq Hcore Hcomma Hrest Habs Hlabels.
  rewrite parse_labels_nonempty
    by (try apply truthy_app_r, truthy_app_l; easy).
  rewrite replace_char_absent
    by (rewrite (mem_char_app _ (p +:+ core +:+ q)),
                (mem_char_app _ sep), Hcomma, Hcs, Hrest; reflexivity).
  rewrite split_scan_first by assumption.
  cbn [List.map]. f_equal.
  change (strip (p +:+ core +:+ q) :: List.map strip (split_scan sep 0 rest))
    with ([strip (p +:+ core +:+ q)] ++
          List.map strip (split_scan sep 0 rest)).
  rewrite List.filter_app, keep_padded by assumption. f_equal.
  destruct (truthy rest) eqn:Ht.
  - rewrite parse_labels_nonempty in Hlabels by assumption.
    rewrite replace_char_absent in Hlabels by exact Hrest.
    now injection Hlabels.
  - destruct rest; [|discriminate].
    apply (f_equal (fun r => match r with inr l => l | inl _ => [] end))
      in Hlabels.
    simpl in Hlabels. now subst labels.
Qed.

(** C8: [parse_labels] (the spec's splitTags) never fails on an empty or
    absent input, whatever the separator, and yields no label for it; on
    any other input and a non-empty separator it replaces each comma by the
    separator, splits at the separator, trims the pieces and drops the
    empty ones, so that every label it yields is trimmed and not empty and
    a comma splits exactly as the separator does; pieces that occur twice
    are kept twice, in order; and ["a;b,c"] with [";"] yields
    [["a"; "b"; "c"]].

    Splitting and trimming are stated on the texts themselves.  A text is
    white space, a core with no white space at either end, and white
    space.  When the separator, of any length, occurs nowhere in such a
    text without commas, the labels are the core alone, or none when the
    core is empty.  When the separator occurs first right after such a
    text, the labels are the core (when not empty) followed by the labels
    of what comes after that occurrence.  A comma anywhere in the input
    stands for one occurrence of the separator. *)
Theorem parse_labels_spec :
  (forall sep,
      parse_labels None sep = inr [] /\
      parse_labels (Some EmptyString) sep = inr []) /\
  parse_labels (Some "a;b,c") ";" = inr ["a"; "b"; "c"] /\
  parse_labels (Some "a;b,a") ";" = inr ["a"; "b"; "a"] /\
  (forall raw sep,
      truthy raw = true -> truthy sep = true ->
      parse_labels (Some raw) sep =
      inr (List.filter truthy
             (List.map strip (split_scan sep 0 (replace_char "," sep raw))))) /\
  (forall raw sep labels,
      parse_labels raw sep = inr labels ->
      Forall (fun p => truthy p = true /\ strip p = p) labels) /\
  (forall raw sep,
      truthy sep = true -> mem_char "," sep = false ->
      parse_labels (Some (replace_char "," sep raw)) sep =
      parse_labels (Some raw) sep) /\
  (forall sep pieces,
      truthy sep = true -> mem_char "," sep = false ->
      Forall (plain_piece sep) pieces ->
      parse_labels (Some (join sep pieces)) sep = inr pieces /\
      parse_labels (Some (join "," pieces)) sep = inr pieces) /\
  (forall sep a b,
      truthy sep = true -> mem_char "," sep = false ->
      parse_labels (Some (a +:+ "," +:+ b)) sep =
      parse_labels (Some (a +:+ sep +:+ b)) sep) /\
  (forall sep p core q,
      truthy sep = true ->
      all_space p = true -> all_space q = true -> trimmed core = true ->
      mem_char "," (p +:+ core +:+ q) = false ->
      absent_before sep (p +:+ core +:+ q)
                    (String.length (p +:+ core +:+ q)) = true ->
      parse_labels (Some (p +:+ core +:+ q)) sep =
      inr (List.filter truthy [core])) /\
  (forall sep p core q rest labels,
      truthy sep = true -> mem_char "," sep = false ->
      all_space p = true -> all_space q = true -> trimmed core = true ->
      mem_char "," (p +:+ core +:+ q) = false ->
      mem_char "," rest = false ->
      absent_before sep ((p +:+ core +:+ q) +:+ sep +:+ rest)
                    (String.length (p +:+ core +:+ q)) = true ->
      parse_labels (Some rest) sep = inr labels ->
      parse_labels (Some ((p +:+ core +:+ q) +:+ sep +:+ rest)) sep =
      inr (List.filter truthy [core] ++ labels)) /\
  parse_labels (Some " x ,;y") ";" = inr ["x"; "y"] /\
  parse_labels (Some "  ; ,;") ";" = inr [] /\
  parse_labels (Some "a-b--c ,d") "--" = inr ["a-b"; "c"; "d"] /\
  parse_labels (Some "aXXXb") "XX" = inr ["a"; "Xb"] /\
  parse_labels (Some "a, b") ", " = inr ["a"; "b"] /\
  parse_labels (Some "a,b") "," = inr ["a"; "b"].
Proof.
  split; [intros sep; split; reflexivity|].
  split; [reflexivity|]. split; [reflexivity|].
  split; [exact parse_labels_nonempty|].
  split; [exact parse_labels_pieces|].
  split.
  { intros raw sep Hsep Hcomma.
    destruct (truthy raw) eqn:Hraw.
    + rewrite !parse_labels_nonempty
        by (try apply truthy_replace; assumption).
      rewrite (replace_char_absent _ _ (replace_char "," sep raw))
        by (now apply mem_char_replace).
      reflexivity.
    + destruct raw; [reflexivity | discriminate]. }
  split.
  { intros sep pieces Hsep Hcomma Hall.
    destruct pieces as [|p rest]; [split; reflexivity|].
    assert (Hne : p :: rest <> []) by congruence.
    assert (Hav : Forall (fun q => avoids sep q = true) (p :: rest)).
    { eapply List.Forall_impl; [|exact Hall]. intros q (_ & _ & H & _); exact H. }
    assert (Hnc : Forall (fun q => mem_char "," q = false) (p :: rest)).
    { eapply List.Forall_impl; [|exact Hall]. intros q (_ & _ & _ & H); exact H. }
    assert (Htr : Forall (fun q => truthy q = true) (p :: rest)).
    { eapply List.Forall_impl; [|exact Hall]. intros q (H & _); exact H. }
    split.
    + rewrite parse_labels_nonempty by (try apply truthy_join; assumption).
      rewrite replace_char_absent by (now apply mem_char_join).
      rewrite split_scan_join by assumption.
      f_equal. now apply (keep_plain_pieces sep).
    + rewrite parse_labels_nonempty by (try apply truthy_join; assumption).
      rewrite replace_comma_join by assumption.
      rewrite split_scan_join by assumption.
      f_equal. now apply (keep_plain_pieces sep). }
  split; [exact parse_labels_comma|].
  split; [exact parse_labels_one|].
  split; [exact parse_labels_more|].
  split; [reflexivity|]. split; [reflexivity|]. split; [reflexivity|].
  split; [reflexivity|]. split; reflexivity.
Qed.

Lemma parse_labels_spec_witness :
  Forall (fun p => truthy p = true /\ strip p = p) ["x"; "y"]
  /\ parse_labels (Some (join ";" ["x"; "y"; "x"])) ";" = inr ["x"; "y"; "x"]
  /\ parse_labels (Some (join "," ["x"; "y"; "x"])) ";" = inr ["x"; "y"; "x"]
  /\ parse_labels (Some "a-b,c") "--" = parse_labels (Some "a-b--c") "--"
  /\ parse_labels (Some "  c d ") "--" = inr ["c d"]
  /\ parse_labels (Some "   ") "--" = inr []
  /\ parse_labels (Some " a-b --  c d ") "--" = inr ["a-b"; "c d"].
Proof.
  destruct parse_labels_spec
    as (_ & _ & _ & _ & H2 & _ & H4 & H5 & H6 & H7 & _).
  split; [apply (H2 (Some " x ,;y") ";"); reflexivity|].
  split; [apply H4; [reflexivity | reflexivity | repeat constructor]|].
  split; [apply H4; [reflexivity | reflexivity | repeat constructor]|].
  split; [apply (H5 "--" "a-b" "c"); reflexivity|].
  split; [apply (H6 "--" "  " "c d" " "); reflexivity|].
  split; [apply (H6 "--" "   " EmptyString EmptyString); reflexivity|].
  apply (H7 "--" " " "a-b" " " "  c d " ["c d"]); reflexivity.
Defined.

(** ** [infer_state_group] *)

Lemma in_tuple_In (x : string) (t : list string) :
  in_tuple x t = true <-> In x t.
Proof.
  unfold in_tuple. rewrite List.existsb_exists. split.
  - intros (y & Hy & E). apply String.eqb_eq in E. now subst.
  - intros H. exists x. split; [exact H | apply String.eqb_refl].
Qed.

Lemma in_tuple_not_In (x : string) (t : list string) :
  in_tuple x t = false <-> ~ In x t.
Proof.
  rewrite <- in_tuple_In. destruct (in_tuple x t); split; congruence.
Qed.

(** C9: state-group inference is total, answers one of the four
    categories, and is decided by which keyword set the trimmed,
    lower-cased name belongs to; a name in none of them, the empty and the
    absent name among them, yields [backlog]. *)
Theorem infer_state_group_total (state_name : option string) :
  In (infer_state_group state_name)
     ["backlog"; "started"; "completed"; "cancelled"] /\
  (In (norm_key state_name) BACKLOG_NAMES ->
   infer_state_group state_name = "backlog") /\
  (In (norm_key state_name) STARTED_NAMES ->
   infer_state_group state_name = "started") /\
  (In (norm_key state_name) COMPLETED_NAMES ->
   infer_state_group state_name = "completed") /\
  (In (norm_key state_name) CANCELLED_NAMES ->
   infer_state_group state_name = "cancelled") /\
  (~ In (norm_key state_name)
        (BACKLOG_NAMES ++ STARTED_NAMES ++ COMPLETED_NAMES ++ CANCELLED_NAMES) ->
   infer_state_group state_name = "backlog") /\
  infer_state_group None = "backlog" /\
  infer_state_group (Some EmptyString) = "backlog".
Proof.
  split; [|split; [|split; [|split; [|split; [|split; [|split]]]]]];
    try reflexivity;
    unfold infer_state_group; cbv zeta;
    generalize (norm_key state_name) as k; intros k.
  - destruct (in_tuple k BACKLOG_NAMES); [simpl; tauto|].
    destruct (in_tuple k STARTED_NAMES); [simpl; tauto|].
    destruct (in_tuple k COMPLETED_NAMES); [simpl; tauto|].
    destruct (in_tuple k CANCELLED_NAMES); simpl; tauto.
  - intros H. apply in_tuple_In in H. now rewrite H.
  - intros H. simpl in H.
    decompose [or] H; try contradiction; subst k; reflexivity.
  - intros H. simpl in H.
    decompose [or] H; try contradiction; subst k; reflexivity.
  - intros H. simpl in H.
    decompose [or] H; try contradiction; subst k; reflexivity.
  - intros H. rewrite !List.in_app_iff in H.
    destruct (in_tuple k BACKLOG_NAMES) eqn:E1; [reflexivity|].
    destruct (in_tuple k STARTED_NAMES) eqn:E2;
      [apply in_tuple_In in E2; tauto|].
    destruct (in_tuple k COMPLETED_NAMES) eqn:E3;
      [apply in_tuple_In in E3; tauto|].
    destruct (in_tuple k CANCELLED_NAMES) eqn:E4;
      [apply in_tuple_In in E4; tauto|].
    reflexivity.
Qed.

Lemma infer_state_group_total_witness :
  infer_state_group (Some "  In REVIEW ") = "started" /\
  infer_state_group (Some "Won't Fix") = "cancelled" /\
  infer_state_group (Some "RESOLVED") = "completed" /\
  infer_state_group (Some " To Do") = "backlog" /\
  infer_state_group (Some "Blocked") = "backlog".
Proof.
  destruct (infer_state_group_total (Some "  In REVIEW ")) as (_ & _ & H1 & _).
  destruct (infer_state_group_total (Some "Won't Fix")) as (_ & _ & _ & _ & H2 & _).
  destruct (infer_state_group_total (Some "RESOLVED")) as (_ & _ & _ & H3 & _).
  destruct (infer_state_group_total (Some " To Do")) as (_ & H4 & _).
  destruct (infer_state_group_total (Some "Blocked")) as (_ & _ & _ & _ & _ & H5 & _).
  split; [apply H1; vm_compute; tauto|].
  split; [apply H2; vm_compute; tauto|].
  split; [apply H3; vm_compute; tauto|].
  split; [apply H4; vm_compute; tauto|].
  apply H5. vm_compute. intros H.
  decompose [or] H; try discriminate; contradiction.
Defined.

(** ** Computations *)

Section MonadFacts.

Context {W : Type}.

Lemma bind_inr {A B} (c : M W A) (k : A -> M W B) (s s' : St W) (b : B) :
  bind c k s = (s', inr b) ->
  exists s1 a, c s = (s1, inr a) /\ k a s1 = (s', inr b).
Proof.
  unfold bind. destruct (c s) as [s1 [e|a]]; [discriminate | eauto].
Qed.

Lemma bind_run {A B} (c : M W A) (k : A -> M W B) (s s1 : St W) (a : A) :
  c s = (s1, inr a) -> bind c k s = k a s1.
Proof. unfold bind. now intros ->. Qed.

Lemma bind_raise {A B} (c : M W A) (k : A -> M W B) (s s1 : St W) (e : exn) :
  c s = (s1, inl e) -> bind c k s = (s1, inl e).
Proof. unfold bind. now intros ->. Qed.

Lemma posts_app (a b : list Event) : posts (a ++ b) = posts a ++ posts b.
Proof. apply List.filter_app. Qed.

Lemma no_post_since_refl (s : St W) : no_post_since s s.
Proof. exists []. split; [now rewrite List.app_nil_r | reflexivity]. Qed.

Lemma no_post_since_trans (s1 s2 s3 : St W) :
  no_post_since s1 s2 -> no_post_since s2 s3 -> no_post_since s1 s3.
Proof.
  intros (t1 & E1 & P1) (t2 & E2 & P2). exists (t1 ++ t2). split.
  - now rewrite E2, E1, List.app_assoc.
  - now rewrite posts_app, P1, P2.
Qed.

Lemma quiet_ret {A} (a : A) : quiet (ret (W:=W) a).
Proof. intros s. apply no_post_since_refl. Qed.

Lemma quiet_raise {A} (e : exn) : quiet (raise (W:=W) (A:=A) e).
Proof. intros s. apply no_post_since_refl. Qed.

Lemma quiet_lift {A} (r : exn + A) : quiet (lift (W:=W) r).
Proof. intros s. apply no_post_since_refl. Qed.

Lemma quiet_print (l : Line) : quiet (print (W:=W) l).
Proof.
  intros s. exists []. split; [simpl; now rewrite List.app_nil_r | reflexivity].
Qed.

Lemma quiet_bind {A B} (c : M W A) (k : A -> M W B) :
  quiet c -> (forall a, quiet (k a)) -> quiet (bind c k).
Proof.
  intros Hc Hk s. unfold bind. specialize (Hc s).
  destruct (c s) as [s1 [e|a]]; simpl in *; [exact Hc|].
  eapply no_post_since_trans; [exact Hc | apply Hk].
Qed.

Lemma quiet_try_except {A} (c : M W A) (h : exn -> M W A) :
  quiet c -> (forall e, quiet (h e)) -> quiet (try_except c h).
Proof.
  intros Hc Hh s. unfold try_except. specialize (Hc s).
  destruct (c s) as [s1 [e|a]]; simpl in *; [|exact Hc].
  destruct (is_Exception e); [|exact Hc].
  eapply no_post_since_trans; [exact Hc | apply Hh].
Qed.

Lemma quiet_get (srv : Server W) (url : string) (headers : Headers) :
  quiet (get srv url headers).
Proof.
  intros s. unfold get. destruct (srv_get srv url headers (world s)) as [w' r].
  exists [EGet url headers]. split; reflexivity.
Qed.

Lemma prints_only_ret {A} (a : A) (P : A -> Prop) (E : exn -> Prop) :
  P a -> prints_only (W:=W) (ret a) P E.
Proof.
  intros HP s. exists []. split; [|exact HP].
  simpl. rewrite List.app_nil_r. now destruct s.
Qed.

Lemma prints_only_lift {A} (r : exn + A) (P : A -> Prop) (E : exn -> Prop) :
  match r with inr a => P a | inl e => E e end ->
  prints_only (W:=W) (lift r) P E.
Proof.
  intros HP s. exists []. split; [|exact HP].
  simpl. rewrite List.app_nil_r. now destruct s.
Qed.

Lemma prints_only_print (l : Line) (E : exn -> Prop) :
  prints_only (W:=W) (print l) (fun _ => True) E.
Proof. intros s. exists [l]. split; [reflexivity | exact I]. Qed.

Lemma prints_only_bind {A B} (c : M W A) (k : A -> M W B)
    (P : A -> Prop) (Q : B -> Prop) (E : exn -> Prop) :
  prints_only c P E -> (forall a, P a -> prints_only (k a) Q E) ->
  prints_only (bind c k) Q E.
Proof.
  intros Hc Hk s. destruct (Hc s) as (l1 & E1 & Ha).
  unfold bind. destruct (c s) as [s1 [e|a]]; simpl in *.
  - exists l1. split; [exact E1 | exact Ha].
  - destruct (Hk a Ha s1) as (l2 & E2 & Hb). subst s1. simpl in *.
    exists (l1 ++ l2). split; [|exact Hb].
    rewrite E2. now rewrite List.app_assoc.
Qed.

Lemma prints_only_weaken {A} (c : M W A) (P Q : A -> Prop)
    (E : exn -> Prop) :
  prints_only c P E -> (forall a, P a -> Q a) -> prints_only c Q E.
Proof.
  intros Hc HPQ s. destruct (Hc s) as (l & E1 & Ha). exists l.
  split; [exact E1|]. destruct (snd (c s)); auto.
Qed.

Lemma prints_only_quiet {A} (c : M W A) (P : A -> Prop) (E : exn -> Prop) :
  prints_only c P E -> quiet c.
Proof.
  intros Hc s. destruct (Hc s) as (l & E1 & _). rewrite E1.
  exists []. split; [simpl; now rewrite List.app_nil_r | reflexivity].
Qed.

Lemma prints_only_offline {A} (c : M W A) (P : A -> Prop)
    (E : exn -> Prop) :
  prints_only c P E -> offline_only c.
Proof.
  intros Hc s. destruct (Hc s) as (l & E1 & _). now rewrite E1.
Qed.


End MonadFacts.

(** ** A run in simulate mode *)

Section SimulateFacts.

Context {W : Type} (srv : Server W).
Variables (args : Args) (base_url ws_slug project_id : string).
Variable headers : Headers.
Hypothesis simulate : dry_run args || offline args = true.

(** [parse_labels] raises on an empty separator only. *)
Lemma parse_labels_raises (raw : option string) (sep : string) :
  match parse_labels raw sep with
  | inr _ => True
  | inl _ => truthy sep = false
  end.
Proof.
  unfold parse_labels, split. destruct raw as [r|]; [|exact I].
  destruct (truthy r); [|exact I]. destruct sep; [reflexivity | exact I].
Qed.

Lemma resolve_state_simulate (t : string) (cache : gmap string Obj)
    (E : exn -> Prop) :
  prints_only
    (resolve_state srv args base_url ws_slug project_id headers t cache)
    (fun _ => True) E.
Proof.
  unfold resolve_state. cbv zeta. rewrite simulate.
  destruct (negb _ && negb _).
  - eapply prints_only_bind; [apply prints_only_print|].
    intros _ _. now apply prints_only_ret.
  - now apply prints_only_ret.
Qed.

Lemma resolve_label_simulate (lbl : string) (cache : gmap string Obj)
    (E : exn -> Prop) :
  prints_only
    (resolve_label srv args base_url ws_slug project_id headers lbl cache)
    (fun _ => True) E.
Proof.
  unfold resolve_label. cbv zeta. rewrite simulate.
  destruct (negb _ && negb _).
  - eapply prints_only_bind; [apply prints_only_print|].
    intros _ _. now apply prints_only_ret.
  - now apply prints_only_ret.
Qed.

Lemma labels_loop_simulate (labels label_ids : list string)
    (cache : gmap string Obj) (E : exn -> Prop) :
  prints_only
    (labels_loop srv args base_url ws_slug project_id headers labels
                 label_ids cache)
    (fun _ => True) E.
Proof.
  revert label_ids cache.
  induction labels as [|lbl rest IH]; intros label_ids cache; simpl.
  - now apply prints_only_ret.
  - eapply prints_only_bind; [apply resolve_label_simulate|].
    intros [o c] _. apply IH.
Qed.

Lemma build_payload_simulate (row : Row) (name : string) (v : Locals) :
  prints_only
    (build_payload srv args base_url ws_slug project_id headers row name v)
    (fun r => same_counters v (snd r))
    (fun _ => truthy (label_sep args) = false).
Proof.
  unfold build_payload. cbv zeta.
  eapply prints_only_bind with (P := fun _ => True).
  { apply prints_only_lift.
    generalize (parse_labels_raises
      (Some (or_empty (py_or (row !! "Labels") (row !! "labels"))))
      (label_sep args)).
    destruct (parse_labels _ _); auto. }
  intros labels _.
  eapply prints_only_bind with (P := fun _ => True).
  { destruct (map_state _) as [t|]; [|now apply prints_only_ret].
    destruct (truthy t); [|now apply prints_only_ret].
    eapply prints_only_bind; [apply resolve_state_simulate|].
    intros [o c] _. now apply prints_only_ret. }
  intros [payload sc] _.
  eapply prints_only_bind; [apply labels_loop_simulate|].
  intros [ids lc] _. apply prints_only_ret. simpl. now repeat split.
Qed.

Lemma process_row_simulate (i : nat) (row : Row) (v : Locals) :
  prints_only
    (process_row srv args base_url ws_slug project_id headers i row v)
    (counted row v)
    (fun _ => truthy (label_sep args) = false).
Proof.
  unfold process_row, counted, has_name. cbv zeta.
  destruct (truthy (strip (or_empty (row !! "Summary")))); simpl.
  - eapply prints_only_bind; [apply build_payload_simulate|].
    intros [payload v1] (Hc & Hs & Hf). simpl in *. rewrite simulate.
    eapply prints_only_bind; [apply prints_only_print|].
    intros _ _. apply prints_only_ret. simpl. lia.
  - eapply prints_only_bind; [apply prints_only_print|].
    intros _ _. apply prints_only_ret. simpl. lia.
Qed.

Lemma rows_loop_simulate (i : nat) (rows : list Row) (v : Locals) :
  prints_only
    (rows_loop srv args base_url ws_slug project_id headers i rows v)
    (tallied rows v)
    (fun _ => truthy (label_sep args) = false).
Proof.
  revert i v. induction rows as [|row rest IH]; intros i v; simpl.
  - apply prints_only_ret. unfold tallied. simpl. lia.
  - eapply prints_only_bind; [apply process_row_simulate|].
    intros v1 (Hc & Hs & Hf).
    eapply prints_only_weaken; [apply IH|].
    intros v2 (Hc2 & Hs2 & Hf2). unfold tallied. simpl.
    destruct (has_name row); simpl; lia.
Qed.

End SimulateFacts.

Section RunFacts.

Context {W : Type} (srv : Server W).

Lemma quiet_env (environ : gmap string string) (name : string) :
  quiet (env (W:=W) environ name).
Proof.
  unfold env. cbv zeta. destruct (truthy _); [apply quiet_ret|].
  apply quiet_bind; [apply quiet_print | intros _; apply quiet_raise].
Qed.

Lemma quiet_list_labels (base_url ws_slug project_id : string)
    (headers : Headers) :
  quiet (list_labels srv base_url ws_slug project_id headers).
Proof.
  apply quiet_bind; [apply quiet_get | intros data; apply quiet_ret].
Qed.

Lemma quiet_list_states (base_url ws_slug project_id : string)
    (headers : Headers) :
  quiet (list_states srv base_url ws_slug project_id headers).
Proof.
  apply quiet_bind; [apply quiet_get | intros data; apply quiet_ret].
Qed.

Lemma quiet_resolve_project_id (base_url ws_slug : string)
    (headers : Headers) (want : string) :
  quiet (resolve_project_id srv base_url ws_slug headers want).
Proof.
  apply quiet_bind; [apply quiet_get|]. intros results. cbv zeta.
  destruct (looks_like_uuid _); [apply quiet_ret|].
  destruct (scan_projects _ _); [apply quiet_ret | apply quiet_raise].
Qed.

Lemma quiet_main_simulate (environ : gmap string string) (args : Args)
    (reader : Reader) :
  dry_run args || offline args = true ->
  quiet (main srv environ args reader).
Proof.
  intros Hsim. unfold main. cbv zeta.
  apply quiet_bind; [apply quiet_env | intros base_url].
  apply quiet_bind; [apply quiet_env | intros ws_slug].
  apply quiet_bind; [apply quiet_env | intros project_id].
  apply quiet_bind.
  { apply quiet_try_except.
    - apply quiet_bind; [apply quiet_raise|].
      intros h. apply quiet_resolve_project_id.
    - intros e. apply quiet_bind; [apply quiet_print|].
      intros _. apply quiet_ret. }
  intros project_id'.
  apply quiet_bind; [apply quiet_env | intros api_key].
  apply quiet_bind; [apply quiet_list_labels | intros lc].
  apply quiet_bind; [apply quiet_list_states | intros sc].
  destruct (fieldnames reader) as [present|]; [|apply quiet_raise].
  apply quiet_bind.
  { destruct (in_tuple _ _); [apply quiet_ret|].
    apply quiet_bind; [apply quiet_print | intros _; apply quiet_raise]. }
  intros _. apply quiet_bind.
  { eapply prints_only_quiet. now apply rows_loop_simulate. }
  intros v. apply quiet_print.
Qed.

Lemma usable_id_placeholder (name : string) :
  obj_get (placeholder name) "id" = None /\
  usable_id (Some (placeholder name)) = None.
Proof.
  assert (H : obj_get (placeholder name) "id" = None).
  { unfold obj_get, placeholder. now rewrite lookup_insert_eq. }
  split; [exact H|]. unfold usable_id. rewrite H. simpl.
  now rewrite andb_false_r.
Qed.

End RunFacts.

(** C7: a row whose [Summary] is empty, blank or absent only counts as
    skipped: the row prints its [SKIP] line, no request of any kind is sent
    and the server is left as it was, no payload is built, and the created
    and failure counters and both caches stay as they were. *)
Theorem empty_summary_row_skipped {W : Type} (srv : Server W) (args : Args)
    (base_url ws_slug project_id : string) (headers : Headers)
    (i : nat) (row : Row) (v : Locals) (s : St W) :
  has_name row = false ->
  process_row srv args base_url ws_slug project_id headers i row v s =
  (mkSt (world s) (trace s) (out s ++ [SkipLine i]),
   inr (mkLocals (label_cache v) (state_cache v)
                 (created_count v) (skipped v + 1) (failures v))).
Proof.
  unfold has_name, process_row. cbv zeta. intros ->. reflexivity.
Qed.

Lemma empty_summary_row_skipped_witness :
  has_name (<["Status" := "Done"]> {[ "Summary" := "   " ]}) = false /\
  process_row (Mock.server true Mock.accepts_all) Mock.live "b" "w" "p" ∅ 3
    (<["Status" := "Done"]> {[ "Summary" := "   " ]})
    (mkLocals ∅ ∅ 2 0 0) Mock.start =
  (mkSt (world Mock.start) (trace Mock.start)
        (out Mock.start ++ [SkipLine 3]),
   inr (mkLocals ∅ ∅ 2 (0 + 1) 0)).
Proof.
  split; [reflexivity|].
  apply (empty_summary_row_skipped (Mock.server true Mock.accepts_all)
           Mock.live "b" "w" "p" ∅ 3
           (<["Status" := "Done"]> {[ "Summary" := "   " ]})
           (mkLocals ∅ ∅ 2 0 0) Mock.start).
  reflexivity.
Defined.

(** C5: in simulate mode ([--dry-run] or [--offline]) a run never issues a
    POST, neither to create a label or a state nor to create an issue, and
    its rows do not contact the server at all; a state or a label that is
    absent from its cache, when its creation is not switched off, is
    replaced by a placeholder whose identifier is absent, the intended
    creation being printed and nothing else done; whether its creation is
    switched off or not, what it resolves to has no usable identifier and
    the cache stays as it was. *)
Theorem simulate_mode_creates_nothing {W : Type} (srv : Server W)
    (args : Args) :
  dry_run args || offline args = true ->
  (forall environ reader s,
      no_post_since s (fst (main srv environ args reader s))) /\
  (forall base_url ws_slug project_id headers i rows v,
      offline_only
        (rows_loop srv args base_url ws_slug project_id headers i rows v)) /\
  (forall base_url ws_slug project_id headers t cache s,
      no_create_states args = false ->
      obj_truthy (cache !! lower (strip t)) = false ->
      resolve_state srv args base_url ws_slug project_id headers t cache s =
      (mkSt (world s) (trace s) (out s ++ [DryState t]),
       inr (Some (placeholder t), cache)) /\
      obj_get (placeholder t) "id" = None /\
      usable_id (Some (placeholder t)) = None) /\
  (forall base_url ws_slug project_id headers lbl cache s,
      no_create_labels args = false ->
      obj_truthy (cache !! lower (strip lbl)) = false ->
      resolve_label srv args base_url ws_slug project_id headers lbl cache s =
      (mkSt (world s) (trace s) (out s ++ [DryLabel lbl]),
       inr (Some (placeholder lbl), cache)) /\
      obj_get (placeholder lbl) "id" = None /\
      usable_id (Some (placeholder lbl)) = None) /\
  (forall base_url ws_slug project_id headers name cache s,
      obj_truthy (cache !! lower (strip name)) = false ->
      (exists x printed,
          resolve_state srv args base_url ws_slug project_id headers name
                        cache s =
          (mkSt (world s) (trace s) (out s ++ printed), inr (x, cache)) /\
          usable_id x = None) /\
      (exists x printed,
          resolve_label srv args base_url ws_slug project_id headers name
                        cache s =
          (mkSt (world s) (trace s) (out s ++ printed), inr (x, cache)) /\
          usable_id x = None)).
Proof.
  intros Hsim. split; [|split; [|split; [|split]]].
  - intros environ reader s. now apply quiet_main_simulate.
  - intros. eapply prints_only_offline. now apply rows_loop_simulate.
  - intros base_url ws_slug project_id headers t cache s Hflag Habsent.
    split; [|apply usable_id_placeholder].
    unfold resolve_state. cbv zeta. now rewrite Habsent, Hflag, Hsim.
  - intros base_url ws_slug project_id headers lbl cache s Hflag Habsent.
    split; [|apply usable_id_placeholder].
    unfold resolve_label. cbv zeta. now rewrite Habsent, Hflag, Hsim.
  - intros base_url ws_slug project_id headers name cache s Habsent.
    assert (Hnone : usable_id (cache !! lower (strip name)) = None).
    { unfold usable_id. destruct (cache !! lower (strip name)); [|reflexivity].
      now rewrite Habsent. }
    split.
    + unfold resolve_state. cbv zeta. rewrite Habsent, Hsim.
      destruct (no_create_states args); simpl.
      * exists (cache !! lower (strip name)), []. split; [|exact Hnone].
        unfold ret. rewrite List.app_nil_r. now destruct s.
      * exists (Some (placeholder name)), [DryState name].
        split; [reflexivity | apply usable_id_placeholder].
    + unfold resolve_label. cbv zeta. rewrite Habsent, Hsim.
      destruct (no_create_labels args); simpl.
      * exists (cache !! lower (strip name)), []. split; [|exact Hnone].
        unfold ret. rewrite List.app_nil_r. now destruct s.
      * exists (Some (placeholder name)), [DryLabel name].
        split; [reflexivity | apply usable_id_placeholder].
Qed.

Lemma simulate_mode_creates_nothing_witness :
  dry_run Mock.dry || offline Mock.dry = true /\
  no_post_since Mock.start
    (fst (main (Mock.server true Mock.accepts_all) Mock.environ Mock.dry
               {| fieldnames := Some ["Summary"; "Status"; "Labels"];
                  rows := [<["Labels" := "auth;urgent"]>
                             (<["Status" := "In Progress"]>
                                {[ "Summary" := "Fix login" ]})] |}
               Mock.start)) /\
  (resolve_state (Mock.server true Mock.accepts_all) Mock.dry "b" "w" "p" ∅
                 "Started" ∅ Mock.start =
   (mkSt (world Mock.start) (trace Mock.start)
         (out Mock.start ++ [DryState "Started"]),
    inr (Some (placeholder "Started"), ∅)) /\
   obj_get (placeholder "Started") "id" = None /\
   usable_id (Some (placeholder "Started")) = None) /\
  (resolve_label (Mock.server true Mock.accepts_all) Mock.dry "b" "w" "p" ∅
                 "auth" ∅ Mock.start =
   (mkSt (world Mock.start) (trace Mock.start)
         (out Mock.start ++ [DryLabel "auth"]),
    inr (Some (placeholder "auth"), ∅)) /\
   obj_get (placeholder "auth") "id" = None /\
   usable_id (Some (placeholder "auth")) = None).
Proof.
  split; [reflexivity|].
  destruct (simulate_mode_creates_nothing
              (Mock.server true Mock.accepts_all) Mock.dry eq_refl)
    as (H1 & _ & H3 & H4 & _).
  split; [apply H1|].
  split; [apply H3; reflexivity | apply H4; reflexivity].
Defined.



(** ** [resolve_project_id] *)

Lemma span_all_hex_hyphen (t : string) :
  all_hex_hyphen t = true ->
  span_hex_hyphen t = (String.length t, EmptyString).
Proof.
  induction t as [|c t IH]; simpl; [reflexivity|].
  intros H. apply andb_prop in H as [Hc Ht].
  now rewrite Hc, IH.
Qed.

Lemma token_looks_like_uuid (t : string) :
  hex_hyphen_token t -> looks_like_uuid t = true.
Proof.
  intros [Hlen Hall]. unfold looks_like_uuid.
  rewrite span_all_hex_hyphen by exact Hall. cbn [String.eqb orb].
  rewrite andb_true_r. now apply Nat.leb_le.
Qed.

(** C1, as the code has it: for an input whose normalised form is a token
    of 8 characters at least, drawn from the hexadecimal digits and the
    hyphen, [resolve_project_id] issues the one listing request it issues
    for any input, does not look at what the listing holds, and returns the
    input as it was given when the request succeeds; when the request fails
    it raises that failure. *)
Theorem resolve_project_id_token {W : Type} (srv : Server W)
    (base_url ws_slug : string) (headers : Headers) (want : string)
    (s : St W) :
  hex_hyphen_token (norm_key (Some want)) ->
  resolve_project_id srv base_url ws_slug headers want s =
  (mkSt (fst (srv_get srv (projects_url base_url ws_slug) headers (world s)))
        (trace s ++ [EGet (projects_url base_url ws_slug) headers])
        (out s),
   match snd (srv_get srv (projects_url base_url ws_slug) headers (world s))
   with
   | inl e => inl (HttpFailure e)
   | inr _ => inr want
   end).
Proof.
  intros Htok. apply token_looks_like_uuid in Htok.
  unfold resolve_project_id, bind, get. cbv zeta.
  destruct (srv_get srv _ headers (world s)) as [w' [e|results]]; simpl.
  - reflexivity.
  - now rewrite Htok.
Qed.

Lemma resolve_project_id_token_witness :
  hex_hyphen_token (norm_key (Some " ABC12345-de67 ")) /\
  resolve_project_id (Mock.server true Mock.accepts_all) "b" "w" ∅
                     " ABC12345-de67 " Mock.start =
  (mkSt (world Mock.start) [EGet (projects_url "b" "w") ∅] [],
   inr " ABC12345-de67 ").
Proof.
  assert (H : hex_hyphen_token (norm_key (Some " ABC12345-de67 "))).
  { split; [vm_compute; lia | reflexivity]. }
  split; [exact H|].
  exact (resolve_project_id_token (Mock.server true Mock.accepts_all)
           "b" "w" ∅ " ABC12345-de67 " Mock.start H).
Defined.

(** C1 as stated fails: on ["abc12345-de67"] the project listing is
    requested before the shape of the input is looked at, and when that
    request fails the input is not returned. *)
Lemma resolve_project_id_lists_first :
  hex_hyphen_token (norm_key (Some "abc12345-de67")) /\
  trace (fst (resolve_project_id (Mock.server true Mock.accepts_all)
                "b" "w" ∅ "abc12345-de67" Mock.start)) =
    [EGet (projects_url "b" "w") ∅] /\
  trace (fst (resolve_project_id (Mock.server true Mock.accepts_all)
                "b" "w" ∅ "abc12345-de67" Mock.start)) <>
    trace Mock.start /\
  snd (resolve_project_id (Mock.server false Mock.accepts_all)
         "b" "w" ∅ "abc12345-de67" Mock.start) =
    inl (HttpFailure (Transport "connection refused")) /\
  snd (resolve_project_id (Mock.server false Mock.accepts_all)
         "b" "w" ∅ "abc12345-de67" Mock.start) <>
    inr "abc12345-de67".
Proof.
  split; [split; [vm_compute; lia | reflexivity]|].
  split; [reflexivity|]. split; [discriminate|].
  split; [reflexivity | discriminate].
Qed.

(** ** [ensure_state] *)

(** C4: when the state is absent from the listing, [ensure_state] posts
    the name with the default colour; if that request fails it posts once
    more, the same body with the inferred group added; if that fails too
    the failure of the second request is raised; there is no third
    request.  In live mode the loop of [main] creates an absent state
    through [ensure_state] and then reloads the cache. *)
Theorem ensure_state_retries_once {W : Type} (srv : Server W)
    (base_url ws_slug project_id : string) (headers : Headers)
    (name : string) (s s1 : St W) (existing : gmap string Obj) :
  list_states srv base_url ws_slug project_id headers s = (s1, inr existing) ->
  existing !! norm_key (Some name) = None ->
  let url := states_url base_url ws_slug project_id in
  let minimal : Json :=
    <["color" := JStr "#9ca3af"]> {[ "name" := JStr name ]} in
  let augmented : Json :=
    <["group" := JStr (infer_state_group (Some name))]> minimal in
  match srv_post srv url headers minimal (world s1) with
  | (w2, inr o) =>
      ensure_state srv base_url ws_slug project_id headers name s =
      (mkSt w2 (trace s1 ++ [EPost url headers minimal]) (out s1), inr o)
  | (w2, inl _) =>
      ensure_state srv base_url ws_slug project_id headers name s =
      (mkSt (fst (srv_post srv url headers augmented w2))
            (trace s1 ++ [EPost url headers minimal;
                          EPost url headers augmented])
            (out s1),
       match snd (srv_post srv url headers augmented w2) with
       | inr o => inr o
       | inl e2 => inl (HttpFailure e2)
       end)
  end /\
  forall args t cache,
    dry_run args || offline args = false ->
    no_create_states args = false ->
    obj_truthy (cache !! lower (strip t)) = false ->
    resolve_state srv args base_url ws_slug project_id headers t cache =
    (state_obj <- ensure_state srv base_url ws_slug project_id headers t ;;
     state_cache <- list_states srv base_url ws_slug project_id headers ;;
     ret (Some state_obj, state_cache)).
Proof.
  intros Hlist Habsent url minimal augmented. split.
  - unfold ensure_state. rewrite (bind_run _ _ _ _ _ Hlist). cbv zeta.
    rewrite Habsent. fold url. fold minimal. fold augmented.
    unfold try_except, post.
    destruct (srv_post srv url headers minimal (world s1)) as [w2 [e|o]];
      simpl; [|reflexivity].
    destruct (srv_post srv url headers augmented w2) as [w3 [e2|o]]; simpl;
      now rewrite <- List.app_assoc.
  - intros args t cache Hlive Hflag Hmiss.
    unfold resolve_state. cbv zeta. rewrite Hmiss, Hflag, Hlive. simpl.
    apply orb_false_elim in Hlive as [_ ->]. reflexivity.
Qed.

Lemma ensure_state_retries_once_witness :
  let srv := Mock.server true Mock.wants_group in
  let url := states_url "b" "w" "p" in
  let minimal : Json :=
    <["color" := JStr "#9ca3af"]> {[ "name" := JStr "Done" ]} in
  let augmented : Json := <["group" := JStr "completed"]> minimal in
  ensure_state srv "b" "w" "p" ∅ "Done" Mock.start =
  (mkSt (Mock.mkWorld [Mock.created augmented 0] 1)
        ([EGet url ∅] ++ [EPost url ∅ minimal; EPost url ∅ augmented])
        [],
   inr (Mock.created augmented 0)).
Proof.
  intros srv url minimal augmented.
  destruct (ensure_state_retries_once srv "b" "w" "p" ∅ "Done" Mock.start
              (mkSt (Mock.mkWorld [] 0) [EGet url ∅] []) ∅
              eq_refl eq_refl) as [H _].
  exact H.
Defined.

(** ** Failures while a row is processed *)

Lemma build_payload_counters {W : Type} (srv : Server W) (args : Args)
    (base_url ws_slug project_id : string) (headers : Headers)
    (row : Row) (name : string) (v v1 : Locals) (payload : Json)
    (s s1 : St W) :
  build_payload srv args base_url ws_slug project_id headers row name v s =
    (s1, inr (payload, v1)) ->
  same_counters v v1.
Proof.
  intros H. unfold build_payload in H. cbv zeta in H.
  apply bind_inr in H as (sa & labels & _ & H).
  apply bind_inr in H as (sb & [p sc] & _ & H).
  apply bind_inr in H as (sd & [ids lc] & _ & H).
  unfold ret in H. injection H as _ _ <-. now repeat split.
Qed.

(** C2, as the code has it: when the request that creates the issue of a
    row fails, the failure is caught in the row: the [FAIL] line with the
    number of the row and the cause is printed, the failure counter goes up
    by one, the other two counters stay, and the loop goes on with the next
    row.  A failure raised while the state or the labels of the row are
    resolved is not caught in the row: it ends the loop, and the run, as
    it is. *)
Theorem issue_failure_is_counted {W : Type} (srv : Server W) (args : Args)
    (base_url ws_slug project_id : string) (headers : Headers)
    (i : nat) (row : Row) (rest : list Row) (v : Locals) (s : St W) :
  has_name row = true ->
  dry_run args || offline args = false ->
  (forall s1 payload v1 w2 e,
      build_payload srv args base_url ws_slug project_id headers row
        (strip (or_empty (row !! "Summary"))) v s = (s1, inr (payload, v1)) ->
      srv_post srv (issues_url base_url ws_slug project_id) headers payload
               (world s1) = (w2, inl e) ->
      exists v',
        process_row srv args base_url ws_slug project_id headers i row v s =
        (mkSt w2
              (trace s1 ++
               [EPost (issues_url base_url ws_slug project_id) headers payload])
              (out s1 ++ [FailLine i (HttpFailure e)]),
         inr v') /\
        failures v' = failures v + 1 /\
        created_count v' = created_count v /\
        skipped v' = skipped v /\
        rows_loop srv args base_url ws_slug project_id headers i
                  (row :: rest) v s =
        rows_loop srv args base_url ws_slug project_id headers (S i) rest v'
          (mkSt w2
             (trace s1 ++
              [EPost (issues_url base_url ws_slug project_id) headers payload])
             (out s1 ++ [FailLine i (HttpFailure e)]))) /\
  (forall s1 e,
      build_payload srv args base_url ws_slug project_id headers row
        (strip (or_empty (row !! "Summary"))) v s = (s1, inl e) ->
      rows_loop srv args base_url ws_slug project_id headers i
                (row :: rest) v s = (s1, inl e)).
Proof.
  intros Hname Hlive. split.
  - intros s1 payload v1 w2 e Hbuild Hpost.
    destruct (build_payload_counters _ _ _ _ _ _ _ _ _ _ _ _ _ Hbuild)
      as (Hc & Hs & Hf).
    assert (Hrow :
      process_row srv args base_url ws_slug project_id headers i row v s =
      (mkSt w2
            (trace s1 ++
             [EPost (issues_url base_url ws_slug project_id) headers payload])
            (out s1 ++ [FailLine i (HttpFailure e)]),
       inr (mkLocals (label_cache v1) (state_cache v1) (created_count v1)
                     (skipped v1) (failures v1 + 1)))).
    { unfold process_row. cbv zeta. unfold has_name in Hname.
      rewrite Hname. change (negb true) with false. cbv iota.
      rewrite (bind_run _ _ _ _ _ Hbuild). cbv iota beta. rewrite Hlive.
      unfold try_except, create_issue, bind, post. rewrite Hpost.
      reflexivity. }
    eexists. split; [exact Hrow|]. simpl.
    split; [now rewrite Hf|]. split; [exact Hc|]. split; [exact Hs|].
    now rewrite (bind_run _ _ _ _ _ Hrow).
  - intros s1 e Hbuild. simpl.
    apply bind_raise. unfold process_row. cbv zeta.
    unfold has_name in Hname. rewrite Hname. change (negb true) with false. cbv iota.
    now apply bind_raise.
Qed.

Lemma issue_failure_is_counted_witness :
  let srv := Mock.server true Mock.accepts_none in
  let args := {| delimiter := ","; label_sep := ";"; dry_run := false;
                 offline := false; no_create_labels := true;
                 no_create_states := true; rate_limit := 0 |} in
  let row : Row := <["Status" := "Done"]> {[ "Summary" := "Fix login" ]} in
  exists v',
    process_row srv args "b" "w" "p" ∅ 1 row (mkLocals ∅ ∅ 0 0 0) Mock.start =
    (mkSt (Mock.mkWorld [] 0)
          ([] ++ [EPost (issues_url "b" "w" "p") ∅ {[ "name" := JStr "Fix login" ]}])
          ([] ++ [FailLine 1 (HttpFailure (BadStatus 400 "bad request"))]),
     inr v') /\
    failures v' = 0 + 1 /\ created_count v' = 0 /\ skipped v' = 0.
Proof.
  intros srv args row.
  destruct (issue_failure_is_counted srv args "b" "w" "p" ∅ 1 row []
              (mkLocals ∅ ∅ 0 0 0) Mock.start eq_refl eq_refl) as [H _].
  destruct (H Mock.start {[ "name" := JStr "Fix login" ]}
              (mkLocals ∅ ∅ 0 0 0) (Mock.mkWorld [] 0)
              (BadStatus 400 "bad request") eq_refl eq_refl)
    as (v' & E & Hf & Hc & Hs & _).
  exists v'. split; [exact E|]. split; [exact Hf|]. split; [exact Hc | exact Hs].
Defined.

(** C2 as stated fails: in a live run against a server that refuses every
    POST, the first row needs a state that is absent; the failure of its
    creation leaves [main]: no [FAIL] line, no count, no second row and no
    summary line. *)
Lemma state_creation_failure_ends_run :
  let run :=
    main (Mock.server true Mock.accepts_none) Mock.environ Mock.live
         {| fieldnames := Some ["Summary"; "Status"];
            rows := [ <["Status" := "Done"]> {[ "Summary" := "Fix login" ]};
                      {[ "Summary" := "Add tests" ]} ] |}
         Mock.start in
  snd run = inl (HttpFailure (BadStatus 400 "bad request")) /\
  out (fst run) = [WarnProject (UnboundLocalError "headers")].
Proof. split; reflexivity. Qed.

(** ** Calling [ensure_label] or [ensure_state] twice *)

Lemma by_name_snoc (data : list Obj) (o : Obj) :
  by_name (data ++ [o]) = <[norm_key (obj_get o "name") := o]> (by_name data).
Proof. unfold by_name. now rewrite List.fold_left_app. Qed.

Lemma json_text_label_name (name : string) :
  json_text ({[ "name" := JStr name ]} : Json) "name" = Some name.
Proof. unfold json_text. now rewrite lookup_singleton_eq. Qed.

Lemma json_text_state_name (name : string) (extra : option string) :
  json_text
    (match extra with
     | Some grp =>
         <["group" := JStr grp]>
           (<["color" := JStr "#9ca3af"]> ({[ "name" := JStr name ]} : Json))
     | None => <["color" := JStr "#9ca3af"]> ({[ "name" := JStr name ]} : Json)
     end) "name" = Some name.
Proof.
  unfold json_text. destruct extra.
  - rewrite lookup_insert_ne by discriminate.
    rewrite lookup_insert_ne by discriminate.
    now rewrite lookup_singleton_eq.
  - rewrite lookup_insert_ne by discriminate.
    now rewrite lookup_singleton_eq.
Qed.

Section Twice.

Context {W : Type} (srv : Server W).
Variables (base_url ws_slug project_id : string) (headers : Headers).
Variable coll : W -> list Obj.

(** Once the entity is listed, [ensure_label] returns it after one
    listing request. *)
Lemma ensure_label_listed (name : string) (o : Obj) (s : St W) :
  lists_what_it_creates srv (labels_url base_url ws_slug project_id)
                        headers coll ->
  by_name (coll (world s)) !! norm_key (Some name) = Some o ->
  exists w',
    ensure_label srv base_url ws_slug project_id headers name s =
    (mkSt w' (trace s ++ [EGet (labels_url base_url ws_slug project_id) headers])
          (out s), inr o) /\
    coll w' = coll (world s).
Proof.
  intros [Hget _] Hk. destruct (Hget (world s)) as (w' & Eg & Hc).
  exists w'. split; [|exact Hc].
  unfold ensure_label, list_labels, bind, get, ret. rewrite Eg.
  cbv zeta. now rewrite Hk.
Qed.

Lemma ensure_state_listed (name : string) (o : Obj) (s : St W) :
  lists_what_it_creates srv (states_url base_url ws_slug project_id)
                        headers coll ->
  by_name (coll (world s)) !! norm_key (Some name) = Some o ->
  exists w',
    ensure_state srv base_url ws_slug project_id headers name s =
    (mkSt w' (trace s ++ [EGet (states_url base_url ws_slug project_id) headers])
          (out s), inr o) /\
    coll w' = coll (world s).
Proof.
  intros [Hget _] Hk. destruct (Hget (world s)) as (w' & Eg & Hc).
  exists w'. split; [|exact Hc].
  unfold ensure_state, list_states, bind, get, ret. rewrite Eg.
  cbv zeta. now rewrite Hk.
Qed.

Lemma ensure_label_twice (name : string) (s s1 : St W) (o1 : Obj) :
  lists_what_it_creates srv (labels_url base_url ws_slug project_id)
                        headers coll ->
  ensure_label srv base_url ws_slug project_id headers name s = (s1, inr o1) ->
  exists s2 t,
    ensure_label srv base_url ws_slug project_id headers name s1 =
      (s2, inr o1) /\
    trace s2 =
      trace s1 ++ [EGet (labels_url base_url ws_slug project_id) headers] /\
    trace s2 = trace s ++ t /\
    length (posts t) <= 1 /\
    (coll (world s2) = coll (world s) \/
     coll (world s2) = coll (world s) ++ [o1]).
Proof.
  intros Hsrv H. pose proof Hsrv as [Hget Hpost].
  destruct (Hget (world s)) as (w1 & Eg & Hc1).
  unfold ensure_label, list_labels, bind, get, ret in H.
  rewrite Eg in H. cbv zeta in H.
  destruct (by_name (coll (world s)) !! norm_key (Some name)) as [o|] eqn:Hk.
  - injection H as <- <-.
    match goal with
    | |- context [ensure_label _ _ _ _ _ _ ?st] =>
        destruct (ensure_label_listed name o st) as (w2 & E2 & Hc2)
    end;
      [exact Hsrv | simpl; rewrite Hc1; exact Hk |].
    eexists _, _. split; [exact E2|]. simpl in *.
    split; [reflexivity|]. split; [now rewrite <- List.app_assoc|].
    split; [simpl; lia|]. left. congruence.
  - unfold post in H. simpl in H.
    pose proof (Hpost {[ "name" := JStr name ]} w1) as Hp.
    destruct (srv_post srv _ headers _ w1) as [w2 [e|o]]; [discriminate|].
    injection H as <- <-. destruct Hp as [Hc2 Hn].
    match goal with
    | |- context [ensure_label _ _ _ _ _ _ ?st] =>
        destruct (ensure_label_listed name o st) as (w3 & E3 & Hc3)
    end;
      [exact Hsrv | |].
    { simpl. rewrite Hc2, by_name_snoc, Hn, json_text_label_name.
      apply lookup_insert_eq. }
    eexists _, _. split; [exact E3|]. simpl in *.
    split; [reflexivity|]. split; [now rewrite <- !List.app_assoc|].
    split; [simpl; lia|]. right. congruence.
Qed.

Lemma ensure_state_twice (name : string) (s s1 : St W) (o1 : Obj) :
  lists_what_it_creates srv (states_url base_url ws_slug project_id)
                        headers coll ->
  ensure_state srv base_url ws_slug project_id headers name s = (s1, inr o1) ->
  exists s2 t,
    ensure_state srv base_url ws_slug project_id headers name s1 =
      (s2, inr o1) /\
    trace s2 =
      trace s1 ++ [EGet (states_url base_url ws_slug project_id) headers] /\
    trace s2 = trace s ++ t /\
    length (posts t) <= 2 /\
    (coll (world s2) = coll (world s) \/
     coll (world s2) = coll (world s) ++ [o1]).
Proof.
  intros Hsrv H. pose proof Hsrv as [Hget Hpost].
  destruct (Hget (world s)) as (w1 & Eg & Hc1).
  unfold ensure_state, list_states, bind, get, ret in H.
  rewrite Eg in H. cbv zeta in H.
  destruct (by_name (coll (world s)) !! norm_key (Some name)) as [o|] eqn:Hk.
  - injection H as <- <-.
    match goal with
    | |- context [ensure_state _ _ _ _ _ _ ?st] =>
        destruct (ensure_state_listed name o st) as (w2 & E2 & Hc2)
    end;
      [exact Hsrv | simpl; rewrite Hc1; exact Hk |].
    eexists _, _. split; [exact E2|]. simpl in *.
    split; [reflexivity|]. split; [now rewrite <- List.app_assoc|].
    split; [simpl; lia|]. left. congruence.
  - unfold try_except, post in H. simpl in H.
    pose proof (Hpost (<["color" := JStr "#9ca3af"]> {[ "name" := JStr name ]})
                      w1) as Hp.
    destruct (srv_post srv _ headers _ w1) as [w2 [e|o]]; simpl in H.
    + pose proof (Hpost (<["group" := JStr (infer_state_group (Some name))]>
                           (<["color" := JStr "#9ca3af"]>
                              {[ "name" := JStr name ]})) w2) as Hq.
      destruct (srv_post srv _ headers _ w2) as [w3 [e2|o]]; simpl in H;
        [discriminate|].
      injection H as <- <-. destruct Hq as [Hc3 Hn].
      match goal with
    | |- context [ensure_state _ _ _ _ _ _ ?st] =>
        destruct (ensure_state_listed name o st) as (w4 & E4 & Hc4)
    end;
        [exact Hsrv | |].
      { simpl. rewrite Hc3, by_name_snoc, Hn.
        rewrite (json_text_state_name name
                   (Some (infer_state_group (Some name)))).
        apply lookup_insert_eq. }
      eexists _, _. split; [exact E4|]. simpl in *.
      split; [reflexivity|]. split; [now rewrite <- !List.app_assoc|].
      split; [simpl; lia|]. right. congruence.
    + injection H as <- <-. destruct Hp as [Hc2 Hn].
      match goal with
    | |- context [ensure_state _ _ _ _ _ _ ?st] =>
        destruct (ensure_state_listed name o st) as (w3 & E3 & Hc3)
    end;
        [exact Hsrv | |].
      { simpl. rewrite Hc2, by_name_snoc, Hn.
        rewrite (json_text_state_name name None).
        apply lookup_insert_eq. }
      eexists _, _. split; [exact E3|]. simpl in *.
      split; [reflexivity|]. split; [now rewrite <- !List.app_assoc|].
      split; [simpl; lia|]. right. congruence.
Qed.

End Twice.

Lemma mock_lists_what_it_creates (accepts : Json -> bool) (url : string)
    (headers : Headers) :
  lists_what_it_creates (Mock.server true accepts) url headers Mock.entities.
Proof.
  split.
  - intros w. exists w. split; reflexivity.
  - intros json w. simpl. destruct (accepts json); simpl; [|reflexivity].
    split; [reflexivity|]. unfold Mock.created, obj_get.
    rewrite lookup_insert_ne by discriminate.
    now rewrite lookup_singleton_eq.
Qed.

(** C3, as the code has it: against a server whose listing shows a created
    entity from its creation on, when a first call of [ensure_label] or of
    [ensure_state] for a name returns an entity, a second call for the same
    name returns that same entity, so the same identifier, after one
    listing request and no POST.  Over the two calls at most one entity is
    created.  For a label at most one POST is issued; for a state at most
    two are, the second being the retry with the inferred group after the
    first has failed. *)
Theorem ensure_twice_same_entity {W : Type} (srv : Server W)
    (base_url ws_slug project_id : string) (headers : Headers)
    (name : string) (coll : W -> list Obj) (s s1 : St W) (o1 : Obj) :
  (lists_what_it_creates srv (labels_url base_url ws_slug project_id)
                         headers coll ->
   ensure_label srv base_url ws_slug project_id headers name s
     = (s1, inr o1) ->
   exists s2 t,
     ensure_label srv base_url ws_slug project_id headers name s1 =
       (s2, inr o1) /\
     trace s2 =
       trace s1 ++ [EGet (labels_url base_url ws_slug project_id) headers] /\
     trace s2 = trace s ++ t /\
     length (posts t) <= 1 /\
     (coll (world s2) = coll (world s) \/
      coll (world s2) = coll (world s) ++ [o1])) /\
  (lists_what_it_creates srv (states_url base_url ws_slug project_id)
                         headers coll ->
   ensure_state srv base_url ws_slug project_id headers name s
     = (s1, inr o1) ->
   exists s2 t,
     ensure_state srv base_url ws_slug project_id headers name s1 =
       (s2, inr o1) /\
     trace s2 =
       trace s1 ++ [EGet (states_url base_url ws_slug project_id) headers] /\
     trace s2 = trace s ++ t /\
     length (posts t) <= 2 /\
     (coll (world s2) = coll (world s) \/
      coll (world s2) = coll (world s) ++ [o1])).
Proof.
  split; intros Hsrv H.
  - now apply ensure_label_twice.
  - now apply ensure_state_twice.
Qed.

Lemma ensure_twice_same_entity_witness :
  let srv := Mock.server true Mock.accepts_all in
  let o : Obj := Mock.created {[ "name" := JStr "Auth" ]} 0 in
  let s1 := fst (ensure_label srv "b" "w" "p" ∅ "Auth" Mock.start) in
  lists_what_it_creates srv (labels_url "b" "w" "p") ∅ Mock.entities /\
  ensure_label srv "b" "w" "p" ∅ "Auth" Mock.start = (s1, inr o) /\
  exists s2 t,
    ensure_label srv "b" "w" "p" ∅ "Auth" s1 = (s2, inr o) /\
    trace s2 = trace s1 ++ [EGet (labels_url "b" "w" "p") ∅] /\
    trace s2 = trace Mock.start ++ t /\
    length (posts t) <= 1 /\
    (Mock.entities (world s2) = Mock.entities (world Mock.start) \/
     Mock.entities (world s2) = Mock.entities (world Mock.start) ++ [o]).
Proof.
  intros srv o s1.
  split; [apply mock_lists_what_it_creates|].
  split; [reflexivity|].
  destruct (ensure_twice_same_entity srv "b" "w" "p" ∅ "Auth"
              Mock.entities Mock.start s1 o) as [H _].
  apply H; [apply mock_lists_what_it_creates | reflexivity].
Defined.

(** C3 as stated fails for a state: the server lists what it creates and
    wants the group of a state; the two calls of [ensure_state] return the
    same entity, and two POSTs have been issued, not one at most. *)
Lemma ensure_state_retry_posts_twice :
  let srv := Mock.server true Mock.wants_group in
  let url := states_url "b" "w" "p" in
  let minimal : Json :=
    <["color" := JStr "#9ca3af"]> {[ "name" := JStr "Done" ]} in
  let augmented : Json := <["group" := JStr "completed"]> minimal in
  let r1 := ensure_state srv "b" "w" "p" ∅ "Done" Mock.start in
  let r2 := ensure_state srv "b" "w" "p" ∅ "Done" (fst r1) in
  lists_what_it_creates srv url ∅ Mock.entities /\
  snd r1 = inr (Mock.created augmented 0) /\
  snd r2 = inr (Mock.created augmented 0) /\
  posts (trace (fst r2)) = [EPost url ∅ minimal; EPost url ∅ augmented] /\
  ~ length (posts (trace (fst r2))) <= 1.
Proof.
  intros srv url minimal augmented r1 r2.
  split; [apply mock_lists_what_it_creates|].
  split; [reflexivity|]. split; [reflexivity|]. split; [reflexivity|].
  vm_compute. lia.
Qed.

(** ** The payload of a row *)


Lemma map_state_truthy (x : option string) (t : string) :
  map_state x = Some t -> truthy t = true.
Proof.
  unfold map_state, DEFAULT_STATUS_TO_STATE. destruct x as [j|]; [|discriminate].
  destruct (truthy j); [|discriminate]. intros H.
  repeat (rewrite lookup_insert in H;
          destruct (decide _) in H; [now injection H as <-|]).
  now rewrite lookup_empty in H.
Qed.

Section PayloadFacts.

Context {W : Type} (srv : Server W).
Variables (args : Args) (base_url ws_slug project_id : string).
Variable headers : Headers.



End PayloadFacts.

Lemma usable_id_spec (x : option Obj) (id : string) :
  usable_id x = Some id ->
  exists o, x = Some o /\ obj_get o "id" = Some id /\ truthy id = true.
Proof.
  unfold usable_id. destruct x as [o|]; [|discriminate].
  destruct (obj_truthy (Some o)); [|discriminate]. simpl.
  destruct (obj_get o "id") as [i|] eqn:E; [|discriminate]. simpl.
  destruct (truthy i) eqn:Ht; [|discriminate]. intros [= ->]. eauto.
Qed.


Ltac map_lookup :=
  repeat first
    [ rewrite lookup_insert_eq
    | rewrite lookup_insert_ne by discriminate
    | rewrite lookup_singleton_eq
    | rewrite lookup_singleton_ne by discriminate ].



(** * Further properties *)

(** ** Keys *)

Section KeyFacts.

Lemma isspace_lower_char (c : ascii) :
  py_isspace (py_lower_char c) = py_isspace c.
Proof. destruct c as [[] [] [] [] [] [] [] []]; reflexivity. Qed.

Lemma lower_char_idem (c : ascii) :
  py_lower_char (py_lower_char c) = py_lower_char c.
Proof. destruct c as [[] [] [] [] [] [] [] []]; reflexivity. Qed.

Lemma lower_idem (s : string) : lower (lower s) = lower s.
Proof.
  induction s as [|c s IH]; simpl; [reflexivity|].
  now rewrite lower_char_idem, IH.
Qed.

Lemma lower_lstrip (s : string) : lower (lstrip s) = lstrip (lower s).
Proof.
  induction s as [|c s IH]; simpl; [reflexivity|].
  rewrite isspace_lower_char. destruct (py_isspace c); [exact IH | reflexivity].
Qed.

Lemma lower_rstrip (s : string) : lower (rstrip s) = rstrip (lower s).
Proof.
  induction s as [|c s IH]; [reflexivity|].
  change (lower (String c s)) with (String (py_lower_char c) (lower s)).
  rewrite !rstrip_cons, <- IH, isspace_lower_char.
  destruct (rstrip s); [destruct (py_isspace c)|]; reflexivity.
Qed.

Lemma lower_strip (s : string) : lower (strip s) = strip (lower s).
Proof. unfold strip. now rewrite lower_rstrip, lower_lstrip. Qed.

Lemma norm_key_idem (x : option string) :
  norm_key (Some (norm_key x)) = norm_key x.
Proof.
  unfold norm_key. simpl or_empty.
  now rewrite <- lower_strip, strip_idem, lower_idem.
Qed.

Lemma norm_key_same_letters (a b : string) :
  lower a = lower b -> norm_key (Some a) = norm_key (Some b).
Proof.
  intros H. unfold norm_key. simpl or_empty. now rewrite !lower_strip, H.
Qed.

End KeyFacts.

(** X1: the key under which names are compared is a normal form: taking
    the key of a key changes nothing; two names that differ only in the
    case of their letters have the same key; white space around a name
    does not change its key; an absent name has the key of the empty
    name. *)
Theorem norm_key_normal_form :
  (forall x, norm_key (Some (norm_key x)) = norm_key x) /\
  (forall a b, lower a = lower b -> norm_key (Some a) = norm_key (Some b)) /\
  (forall p s q,
      all_space p = true -> all_space q = true ->
      norm_key (Some (p +:+ s +:+ q)) = norm_key (Some s)) /\
  norm_key None = norm_key (Some EmptyString).
Proof.
  split; [|split; [|split]].
  - exact norm_key_idem.
  - exact norm_key_same_letters.
  - intros p s q Hp Hq. unfold norm_key. simpl or_empty.
    now rewrite strip_padded.
  - reflexivity.
Qed.

Lemma norm_key_normal_form_witness :
  norm_key (Some "BUG") = norm_key (Some "bug") /\
  norm_key (Some (" " +:+ "Bug" +:+ "  ")) = norm_key (Some "Bug").
Proof.
  destruct norm_key_normal_form as (_ & H2 & H3 & _).
  split; [apply H2; reflexivity | apply H3; reflexivity].
Defined.

(** ** The cache built from a listing *)

Lemma by_name_lookup (data : list Obj) (k : string) (o : Obj) :
  by_name data !! k = Some o ->
  In o data /\ norm_key (obj_get o "name") = k.
Proof.
  induction data as [|x data IH] using List.rev_ind.
  - unfold by_name. simpl. now rewrite lookup_empty.
  - rewrite by_name_snoc, lookup_insert.
    destruct (decide (norm_key (obj_get x "name") = k)) as [E|E].
    + intros [= <-]. split; [|exact E].
      apply List.in_or_app. right. now left.
    + intros H. destruct (IH H) as [Hin Hk]. split; [|exact Hk].
      apply List.in_or_app. now left.
Qed.

Lemma by_name_listed (data : list Obj) (o : Obj) :
  In o data -> is_Some (by_name data !! norm_key (obj_get o "name")).
Proof.
  induction data as [|x data IH] using List.rev_ind; [contradiction|].
  intros Hin. rewrite by_name_snoc, lookup_insert.
  destruct (decide (norm_key (obj_get x "name") = norm_key (obj_get o "name")))
    as [E|E]; [eauto|].
  apply List.in_app_or in Hin as [Hin|[->|[]]]; [now apply IH | congruence].
Qed.

Lemma by_name_last (pre post : list Obj) (o : Obj) :
  Forall (fun x => norm_key (obj_get x "name") <> norm_key (obj_get o "name"))
         post ->
  by_name (pre ++ o :: post) !! norm_key (obj_get o "name") = Some o.
Proof.
  induction post as [|x post IH] using List.rev_ind; intros Hpost.
  - change (pre ++ [o]) with (pre ++ [o]).
    rewrite by_name_snoc. apply lookup_insert_eq.
  - apply List.Forall_app in Hpost as [Hpost Hx].
    inversion Hx as [|? ? Hne _]; subst.
    replace (pre ++ o :: post ++ [x]) with ((pre ++ o :: post) ++ [x])
      by (now rewrite <- List.app_assoc).
    rewrite by_name_snoc, lookup_insert_ne by exact Hne. now apply IH.
Qed.

Lemma by_name_size (data : list Obj) : size (by_name data) <= length data.
Proof.
  induction data as [|x data IH] using List.rev_ind.
  - unfold by_name. simpl. now rewrite map_size_empty.
  - rewrite by_name_snoc, List.length_app. simpl.
    destruct (by_name data !! norm_key (obj_get x "name")) eqn:E.
    + rewrite map_size_insert_Some by eauto. lia.
    + rewrite map_size_insert_None by exact E. lia.
Qed.

(** X2: the cache that [list_labels] and [list_states] build from a
    listing holds listed items only, each under the key of its own name,
    and every key is a normal form; every listed item has an entry under
    the key of its name; of the items with one key the last one listed is
    the entry; the cache has no more entries than the listing has items. *)
Theorem by_name_entries (data : list Obj) :
  (forall k o,
      by_name data !! k = Some o ->
      In o data /\ norm_key (obj_get o "name") = k /\
      norm_key (Some k) = k) /\
  (forall o,
      In o data -> is_Some (by_name data !! norm_key (obj_get o "name"))) /\
  (forall pre o post,
      data = pre ++ o :: post ->
      Forall (fun x =>
                norm_key (obj_get x "name") <> norm_key (obj_get o "name"))
             post ->
      by_name data !! norm_key (obj_get o "name") = Some o) /\
  size (by_name data) <= length data.
Proof.
  split; [|split; [|split]].
  - intros k o H. destruct (by_name_lookup data k o H) as [Hin Hk].
    split; [exact Hin|]. split; [exact Hk|].
    rewrite <- Hk. apply norm_key_idem.
  - apply by_name_listed.
  - intros pre o post -> Hpost. now apply by_name_last.
  - apply by_name_size.
Qed.

Lemma by_name_entries_witness :
  let bug : Obj := <["id" := Some "1"]> {[ "name" := Some "Bug" ]} in
  let bug' : Obj := <["id" := Some "2"]> {[ "name" := Some " BUG " ]} in
  let ui : Obj := <["id" := Some "3"]> {[ "name" := Some "UI" ]} in
  (In bug' [bug; bug'; ui] /\ norm_key (obj_get bug' "name") = "bug" /\
   norm_key (Some "bug") = "bug") /\
  is_Some (by_name [bug; bug'; ui] !! norm_key (obj_get bug "name")) /\
  by_name [bug; bug'; ui] !! norm_key (obj_get bug' "name") = Some bug'.
Proof.
  intros bug bug' ui.
  destruct (by_name_entries [bug; bug'; ui]) as (H1 & H2 & H3 & _).
  split; [apply (H1 "bug" bug'); reflexivity|].
  split; [apply H2; simpl; tauto|].
  apply (H3 [bug] bug' [ui]); [reflexivity|].
  repeat constructor. discriminate.
Defined.

(** ** What [ensure_label] and [ensure_state] do with the listing *)

Lemma by_name_unlisted (data : list Obj) (k : string) :
  (forall o, In o data -> norm_key (obj_get o "name") <> k) ->
  by_name data !! k = None.
Proof.
  intros H. destruct (by_name data !! k) as [o|] eqn:E; [|reflexivity].
  destruct (by_name_lookup data k o E) as [Hin Hk]. now destruct (H o Hin).
Qed.

Lemma by_name_finds (data : list Obj) (k : string) :
  (exists o, In o data /\ norm_key (obj_get o "name") = k) ->
  exists o', by_name data !! k = Some o' /\ In o' data /\
             norm_key (obj_get o' "name") = k.
Proof.
  intros (o & Hin & <-). destruct (by_name_listed data o Hin) as [o' E].
  exists o'. split; [exact E|]. now apply by_name_lookup.
Qed.

(** X3: when the listing holds an item whose name has the key of the
    wanted name (the same name up to case and surrounding white space),
    [ensure_label] and [ensure_state] return a listed item with that key
    after the one listing request: nothing is created. *)
Theorem ensure_returns_listed {W : Type} (srv : Server W)
    (base_url ws_slug project_id : string) (headers : Headers)
    (name : string) (s : St W) (w' : W) (data : list Obj) :
  (exists o, In o data /\
             norm_key (obj_get o "name") = norm_key (Some name)) ->
  (srv_get srv (labels_url base_url ws_slug project_id) headers (world s) =
     (w', inr data) ->
   exists o',
     ensure_label srv base_url ws_slug project_id headers name s =
     (mkSt w' (trace s ++ [EGet (labels_url base_url ws_slug project_id)
                                headers]) (out s), inr o') /\
     In o' data /\ norm_key (obj_get o' "name") = norm_key (Some name)) /\
  (srv_get srv (states_url base_url ws_slug project_id) headers (world s) =
     (w', inr data) ->
   exists o',
     ensure_state srv base_url ws_slug project_id headers name s =
     (mkSt w' (trace s ++ [EGet (states_url base_url ws_slug project_id)
                                headers]) (out s), inr o') /\
     In o' data /\ norm_key (obj_get o' "name") = norm_key (Some name)).
Proof.
  intros Hlisted.
  destruct (by_name_finds data _ Hlisted) as (o' & E & Hin & Hk).
  split; intros Hget; exists o'; (split; [|now split]).
  - unfold ensure_label, list_labels, bind, get, ret. rewrite Hget.
    cbv zeta. now rewrite E.
  - unfold ensure_state, list_states, bind, get, ret. rewrite Hget.
    cbv zeta. now rewrite E.
Qed.

Lemma ensure_returns_listed_witness :
  let bug : Obj := <["id" := Some "7"]> {[ "name" := Some " Bug" ]} in
  let s := mkSt (Mock.mkWorld [bug] 1) [] [] in
  exists o',
    ensure_label (Mock.server true Mock.accepts_all) "b" "w" "p" ∅ "BUG " s =
    (mkSt (Mock.mkWorld [bug] 1) ([] ++ [EGet (labels_url "b" "w" "p") ∅]) [],
     inr o') /\
    In o' [bug] /\ norm_key (obj_get o' "name") = norm_key (Some "BUG ").
Proof.
  intros bug s.
  destruct (ensure_returns_listed (Mock.server true Mock.accepts_all)
              "b" "w" "p" ∅ "BUG " s (Mock.mkWorld [bug] 1) [bug]) as [H _].
  - exists bug. split; [now left | reflexivity].
  - apply H. reflexivity.
Defined.

(** X4: when no listed item has the key of the wanted name,
    [ensure_label] sends one POST, whose body is the name as it was given
    and nothing else, and returns what the server answers; when that POST
    fails the failure is raised: a label is not tried a second time. *)
Theorem ensure_label_posts_once {W : Type} (srv : Server W)
    (base_url ws_slug project_id : string) (headers : Headers)
    (name : string) (s : St W) (w' : W) (data : list Obj) :
  srv_get srv (labels_url base_url ws_slug project_id) headers (world s) =
    (w', inr data) ->
  (forall o, In o data ->
             norm_key (obj_get o "name") <> norm_key (Some name)) ->
  ensure_label srv base_url ws_slug project_id headers name s =
  (mkSt (fst (srv_post srv (labels_url base_url ws_slug project_id) headers
                       {[ "name" := JStr name ]} w'))
        (trace s ++
         [EGet (labels_url base_url ws_slug project_id) headers;
          EPost (labels_url base_url ws_slug project_id) headers
                {[ "name" := JStr name ]}])
        (out s),
   match snd (srv_post srv (labels_url base_url ws_slug project_id) headers
                       {[ "name" := JStr name ]} w') with
   | inl e => inl (HttpFailure e)
   | inr o => inr o
   end).
Proof.
  intros Hget Hnone.
  unfold ensure_label, list_labels, bind, get, ret. rewrite Hget. cbv zeta.
  rewrite by_name_unlisted by exact Hnone. unfold post. simpl.
  destruct (srv_post srv _ headers _ w') as [w2 r]. simpl.
  now rewrite <- List.app_assoc.
Qed.

Lemma ensure_label_posts_once_witness :
  ensure_label (Mock.server true Mock.accepts_none) "b" "w" "p" ∅ "Auth"
               Mock.start =
  (mkSt (Mock.mkWorld [] 0)
        ([] ++ [EGet (labels_url "b" "w" "p") ∅;
                EPost (labels_url "b" "w" "p") ∅ {[ "name" := JStr "Auth" ]}])
        [],
   inl (HttpFailure (BadStatus 400 "bad request"))).
Proof.
  apply (ensure_label_posts_once (Mock.server true Mock.accepts_none)
           "b" "w" "p" ∅ "Auth" Mock.start (Mock.mkWorld [] 0) []).
  - reflexivity.
  - intros o [].
Defined.

(** ** [resolve_project_id] on a name *)

Lemma scan_projects_find (want_norm : string) (results : list Obj) :
  scan_projects want_norm results =
  match List.find (project_matches want_norm) results with
  | Some proj => project_id_of proj
  | None => None
  end.
Proof.
  induction results as [|proj rest IH]; [reflexivity|].
  change (scan_projects want_norm (proj :: rest))
    with (if project_matches want_norm proj then project_id_of proj
          else scan_projects want_norm rest).
  cbn [List.find].
  destruct (project_matches want_norm proj); [reflexivity | exact IH].
Qed.

(** X5: for an input that does not look like a UUID, [resolve_project_id]
    sends the one listing request and returns the id of the first listed
    project, in the order of the listing, whose identifier, name or slug
    has the key of the input and whose id ([id], or else [project_id]) is
    present and not empty; a project that matches but has no id is passed
    over; when there is no such project it raises the error that names
    the input and the workspace. *)
Theorem resolve_project_id_by_name {W : Type} (srv : Server W)
    (base_url ws_slug : string) (headers : Headers) (want : string)
    (s : St W) (w' : W) (results : list Obj) :
  looks_like_uuid (norm_key (Some want)) = false ->
  srv_get srv (projects_url base_url ws_slug) headers (world s) =
    (w', inr results) ->
  match List.find (project_matches (norm_key (Some want))) results with
  | Some proj =>
      exists pid,
        project_id_of proj = Some pid /\ truthy pid = true /\
        In proj results /\
        resolve_project_id srv base_url ws_slug headers want s =
        (mkSt w' (trace s ++ [EGet (projects_url base_url ws_slug) headers])
              (out s), inr pid)
  | None =>
      resolve_project_id srv base_url ws_slug headers want s =
      (mkSt w' (trace s ++ [EGet (projects_url base_url ws_slug) headers])
            (out s), inl (CouldNotResolve want ws_slug))
  end.
Proof.
  intros Hshape Hget.
  assert (Hrun :
    resolve_project_id srv base_url ws_slug headers want s =
    (mkSt w' (trace s ++ [EGet (projects_url base_url ws_slug) headers])
          (out s),
     match scan_projects (norm_key (Some want)) results with
     | Some pid => inr pid
     | None => inl (CouldNotResolve want ws_slug)
     end)).
  { unfold resolve_project_id, bind, get. cbv zeta. rewrite Hget, Hshape.
    now destruct (scan_projects _ results). }
  rewrite scan_projects_find in Hrun.
  destruct (List.find _ results) as [proj|] eqn:Hfind; [|exact Hrun].
  apply List.find_some in Hfind as [Hin Hm].
  unfold project_matches in Hm. apply andb_prop in Hm as [_ Hid].
  destruct (project_id_of proj) as [pid|]; [|discriminate].
  exists pid. now repeat split.
Qed.

Lemma resolve_project_id_by_name_witness :
  let draft : Obj := {[ "name" := Some "Bug Tracker" ]} in
  let real : Obj :=
    <["project_id" := Some "42"]> {[ "slug" := Some "bug tracker" ]} in
  let s := mkSt (Mock.mkWorld [draft; real] 2) [] [] in
  exists pid,
    project_id_of real = Some pid /\ truthy pid = true /\
    In real [draft; real] /\
    resolve_project_id (Mock.server true Mock.accepts_all) "b" "w" ∅
                       " BUG Tracker" s =
    (mkSt (Mock.mkWorld [draft; real] 2)
          ([] ++ [EGet (projects_url "b" "w") ∅]) [], inr pid).
Proof.
  intros draft real s.
  exact (resolve_project_id_by_name (Mock.server true Mock.accepts_all)
           "b" "w" ∅ " BUG Tracker" s (Mock.mkWorld [draft; real] 2)
           [draft; real] eq_refl eq_refl).
Defined.

(** ** The environment and the start of [main] *)

Lemma env_run {W : Type} (environ : gmap string string) (name : string)
    (s : St W) :
  env environ name s =
  if env_present environ name
  then (s, inr (strip (default EmptyString (environ !! name))))
  else (mkSt (world s) (trace s) (out s ++ [FatalEnv name]),
        inl (SystemExit 2)).
Proof.
  unfold env, env_present. cbv zeta. now destruct (truthy _).
Qed.

(** X6: [env] returns the value of the variable without the white space
    around it, and that value is not empty; a variable that is unset,
    empty or all white space makes it print the fatal line and leave with
    [SystemExit 2], which an [except Exception] around the call does not
    catch. *)
Theorem env_value_or_exit {W : Type} (environ : gmap string string)
    (name : string) (s : St W) :
  (env_present environ name = true ->
   exists val,
     env environ name s = (s, inr val) /\
     val = strip (default EmptyString (environ !! name)) /\
     strip val = val /\ val <> EmptyString) /\
  (env_present environ name = false ->
   forall (h : exn -> M W string),
     try_except (env environ name) h s =
     (mkSt (world s) (trace s) (out s ++ [FatalEnv name]),
      inl (SystemExit 2))).
Proof.
  split; intros H.
  - exists (strip (default EmptyString (environ !! name))).
    rewrite env_run, H. split; [reflexivity|]. split; [reflexivity|].
    split; [apply strip_idem | now apply truthy_true].
  - intros h. unfold try_except. now rewrite env_run, H.
Qed.

Lemma env_value_or_exit_witness :
  (exists val,
      env (W:=Mock.World) (<["PLANE_API_KEY" := "  key "]> ∅) "PLANE_API_KEY"
          Mock.start = (Mock.start, inr val) /\
      val = "key" /\ strip val = val /\ val <> EmptyString) /\
  try_except (env (W:=Mock.World) (<["PLANE_API_KEY" := "   "]> ∅)
                  "PLANE_API_KEY") (fun _ => ret EmptyString) Mock.start =
  (mkSt (Mock.mkWorld [] 0) [] ([] ++ [FatalEnv "PLANE_API_KEY"]),
   inl (SystemExit 2)).
Proof.
  split.
  - destruct (env_value_or_exit (W:=Mock.World)
                (<["PLANE_API_KEY" := "  key "]> ∅) "PLANE_API_KEY"
                Mock.start) as [H _].
    exact (H eq_refl).
  - destruct (env_value_or_exit (W:=Mock.World)
                (<["PLANE_API_KEY" := "   "]> ∅) "PLANE_API_KEY"
                Mock.start) as [_ H].
    exact (H eq_refl (fun _ => ret EmptyString)).
Defined.

(** X7: when one of the four variables [PLANE_BASE_URL],
    [PLANE_WORKSPACE_SLUG], [PLANE_PROJECT_ID] and [PLANE_API_KEY] is
    unset or blank, [main] leaves with [SystemExit 2] before it has sent
    any request: the server and the trace are as they were. *)
Theorem main_needs_environment {W : Type} (srv : Server W)
    (environ : gmap string string) (args : Args) (reader : Reader)
    (s : St W) :
  env_present environ "PLANE_BASE_URL"
  && env_present environ "PLANE_WORKSPACE_SLUG"
  && env_present environ "PLANE_PROJECT_ID"
  && env_present environ "PLANE_API_KEY" = false ->
  exists printed,
    main srv environ args reader s =
    (mkSt (world s) (trace s) (out s ++ printed), inl (SystemExit 2)).
Proof.
  intros H. unfold main. cbv zeta. unfold bind at 1. rewrite env_run.
  destruct (env_present environ "PLANE_BASE_URL"); [|eauto].
  unfold bind at 1. rewrite env_run.
  destruct (env_present environ "PLANE_WORKSPACE_SLUG"); [|eauto].
  unfold bind at 1. rewrite env_run.
  destruct (env_present environ "PLANE_PROJECT_ID"); [|eauto].
  destruct (env_present environ "PLANE_API_KEY") eqn:Hkey; [discriminate|].
  unfold bind at 1. unfold try_except, read_local, bind at 1, raise.
  cbn [is_Exception]. unfold bind at 1, print, ret. cbn [fst snd].
  unfold bind at 1. rewrite env_run, Hkey. cbn [world trace out].
  exists ([WarnProject (UnboundLocalError "headers")]
          ++ [FatalEnv "PLANE_API_KEY"]).
  now rewrite List.app_assoc.
Qed.

Lemma main_needs_environment_witness :
  exists printed,
    main (Mock.server true Mock.accepts_all)
         (<["PLANE_WORKSPACE_SLUG" := " "]> Mock.environ) Mock.live
         {| fieldnames := Some ["Summary"]; rows := [] |} Mock.start =
    (mkSt (world Mock.start) (trace Mock.start) (out Mock.start ++ printed),
     inl (SystemExit 2)).
Proof.
  apply (main_needs_environment (Mock.server true Mock.accepts_all)
           (<["PLANE_WORKSPACE_SLUG" := " "]> Mock.environ) Mock.live
           {| fieldnames := Some ["Summary"]; rows := [] |} Mock.start).
  reflexivity.
Defined.

(** ** What a computation adds to the trace and to the output *)

Section EmitFacts.

Context {W : Type}.
Variables (Pe : Event -> Prop) (Pl : Line -> Prop).

Lemma emits_still {A} (c : M W A) :
  (forall s, fst (c s) = s) -> emits c Pe Pl.
Proof.
  intros H s. exists [], []. rewrite H, !List.app_nil_r. now repeat split.
Qed.

Lemma emits_ret {A} (a : A) : emits (ret (W:=W) a) Pe Pl.
Proof. now apply emits_still. Qed.

Lemma emits_raise {A} (e : exn) : emits (raise (W:=W) (A:=A) e) Pe Pl.
Proof. now apply emits_still. Qed.

Lemma emits_lift {A} (r : exn + A) : emits (lift (W:=W) r) Pe Pl.
Proof. now apply emits_still. Qed.

Lemma emits_print (l : Line) : Pl l -> emits (print (W:=W) l) Pe Pl.
Proof.
  intros H s. exists [], [l]. simpl. rewrite List.app_nil_r.
  repeat split; [constructor | now repeat constructor].
Qed.

Lemma emits_sleep (q : Q) :
  Pe (ESleep q) -> emits (sleep (W:=W) q) Pe Pl.
Proof.
  intros H s. unfold sleep.
  destruct (sleep_overflows q);
    [exists [], []; simpl; rewrite !List.app_nil_r; now repeat split|].
  destruct (Qlt_le_dec q 0);
    [exists [], []; simpl; rewrite !List.app_nil_r; now repeat split|].
  exists [ESleep q], []. simpl. rewrite List.app_nil_r.
  repeat split; [now repeat constructor | constructor].
Qed.

Lemma emits_get (srv : Server W) (url : string) (headers : Headers) :
  Pe (EGet url headers) -> emits (get srv url headers) Pe Pl.
Proof.
  intros H s. exists [EGet url headers], []. unfold get.
  destruct (srv_get srv url headers (world s)) as [w' r]. simpl.
  rewrite List.app_nil_r. repeat split; [now repeat constructor | constructor].
Qed.

Lemma emits_post (srv : Server W) (url : string) (headers : Headers)
    (json : Json) :
  Pe (EPost url headers json) -> emits (post srv url headers json) Pe Pl.
Proof.
  intros H s. exists [EPost url headers json], []. unfold post.
  destruct (srv_post srv url headers json (world s)) as [w' r]. simpl.
  rewrite List.app_nil_r. repeat split; [now repeat constructor | constructor].
Qed.

Lemma emits_bind {A B} (c : M W A) (k : A -> M W B) :
  emits c Pe Pl -> (forall a, emits (k a) Pe Pl) -> emits (bind c k) Pe Pl.
Proof.
  intros Hc Hk s. destruct (Hc s) as (t1 & l1 & Et & El & Ft & Fl).
  unfold bind. destruct (c s) as [s1 [e|a]]; simpl in *; [now eauto 8|].
  destruct (Hk a s1) as (t2 & l2 & Et2 & El2 & Ft2 & Fl2).
  exists (t1 ++ t2), (l1 ++ l2).
  rewrite Et2, El2, Et, El, !List.app_assoc.
  repeat split; now apply List.Forall_app.
Qed.

Lemma emits_try_except {A} (c : M W A) (h : exn -> M W A) :
  emits c Pe Pl -> (forall e, emits (h e) Pe Pl) ->
  emits (try_except c h) Pe Pl.
Proof.
  intros Hc Hh s. destruct (Hc s) as (t1 & l1 & Et & El & Ft & Fl).
  unfold try_except. destruct (c s) as [s1 [e|a]]; simpl in *;
    [|now eauto 8].
  destruct (is_Exception e); [|now eauto 8].
  destruct (Hh e s1) as (t2 & l2 & Et2 & El2 & Ft2 & Fl2).
  exists (t1 ++ t2), (l1 ++ l2).
  rewrite Et2, El2, Et, El, !List.app_assoc.
  repeat split; now apply List.Forall_app.
Qed.

Lemma prints_only_emits {A} (c : M W A) (P : A -> Prop) (E : exn -> Prop) :
  (forall l, Pl l) -> prints_only c P E -> emits c Pe Pl.
Proof.
  intros Hl Hc s. destruct (Hc s) as (l & E1 & _). exists [], l.
  rewrite E1. simpl. rewrite List.app_nil_r.
  repeat split; [constructor | apply List.Forall_forall; auto].
Qed.

End EmitFacts.

Section RunEmits.

Context {W : Type} (srv : Server W).
Variable Pe : Event -> Prop.
Variables (base_url ws_slug project_id : string) (headers : Headers).
Hypothesis Pe_get_labels :
  Pe (EGet (labels_url base_url ws_slug project_id) headers).
Hypothesis Pe_get_states :
  Pe (EGet (states_url base_url ws_slug project_id) headers).
Hypothesis Pe_post_labels :
  forall json, Pe (EPost (labels_url base_url ws_slug project_id) headers json).
Hypothesis Pe_post_states :
  forall json, Pe (EPost (states_url base_url ws_slug project_id) headers json).
Hypothesis Pe_post_issues :
  forall json, Pe (EPost (issues_url base_url ws_slug project_id) headers json).
Hypothesis Pe_sleep : forall q, Pe (ESleep q).

Ltac emit :=
  repeat first
    [ apply emits_ret | apply emits_raise | apply emits_lift
    | apply emits_print; reflexivity
    | apply emits_get; solve [auto]
    | apply emits_post; solve [auto]
    | apply emits_sleep; solve [auto]
    | apply emits_bind; [|intros ?]
    | apply emits_try_except; [|intros ?] ].

Lemma emits_list_labels :
  emits (list_labels srv base_url ws_slug project_id headers) Pe not_offline.
Proof. unfold list_labels. emit. Qed.

Lemma emits_list_states :
  emits (list_states srv base_url ws_slug project_id headers) Pe not_offline.
Proof. unfold list_states. emit. Qed.

Lemma emits_ensure_label (name : string) :
  emits (ensure_label srv base_url ws_slug project_id headers name)
        Pe not_offline.
Proof.
  unfold ensure_label. apply emits_bind; [apply emits_list_labels|].
  intros existing. cbv zeta. destruct (existing !! _); emit.
Qed.

Lemma emits_ensure_state (name : string) :
  emits (ensure_state srv base_url ws_slug project_id headers name)
        Pe not_offline.
Proof.
  unfold ensure_state. apply emits_bind; [apply emits_list_states|].
  intros existing. cbv zeta. destruct (existing !! _); emit.
Qed.

Lemma emits_resolve_state (args : Args) (t : string)
    (cache : gmap string Obj) :
  emits (resolve_state srv args base_url ws_slug project_id headers t cache)
        Pe not_offline.
Proof.
  unfold resolve_state. cbv zeta. destruct (negb _ && negb _); [|emit].
  destruct (dry_run args || offline args) eqn:Hmode; [emit|].
  apply orb_false_elim in Hmode as [_ ->].
  apply emits_bind; [apply emits_ensure_state|]. intros o.
  apply emits_bind; [apply emits_list_states|]. intros c. emit.
Qed.

Lemma emits_resolve_label (args : Args) (lbl : string)
    (cache : gmap string Obj) :
  emits (resolve_label srv args base_url ws_slug project_id headers lbl cache)
        Pe not_offline.
Proof.
  unfold resolve_label. cbv zeta. destruct (negb _ && negb _); [|emit].
  destruct (dry_run args || offline args) eqn:Hmode; [emit|].
  apply orb_false_elim in Hmode as [_ ->].
  apply emits_bind; [apply emits_ensure_label|]. intros o.
  apply emits_bind; [apply emits_list_labels|]. intros c. emit.
Qed.

Lemma emits_labels_loop (args : Args) (labels label_ids : list string)
    (cache : gmap string Obj) :
  emits (labels_loop srv args base_url ws_slug project_id headers labels
                     label_ids cache)
        Pe not_offline.
Proof.
  revert label_ids cache.
  induction labels as [|lbl rest IH]; intros label_ids cache; simpl; [emit|].
  apply emits_bind; [apply emits_resolve_label|]. intros [o c]. apply IH.
Qed.

Lemma emits_build_payload (args : Args) (row : Row) (name : string)
    (v : Locals) :
  emits (build_payload srv args base_url ws_slug project_id headers row
                       name v)
        Pe not_offline.
Proof.
  unfold build_payload. cbv zeta. apply emits_bind; [emit|]. intros labels.
  apply emits_bind.
  { destruct (map_state _) as [t|]; [|emit]. destruct (truthy t); [|emit].
    apply emits_bind; [apply emits_resolve_state|]. intros [o c]. emit. }
  intros [payload sc]. apply emits_bind; [apply emits_labels_loop|].
  intros [ids lc]. emit.
Qed.

Lemma emits_process_row (args : Args) (i : nat) (row : Row) (v : Locals) :
  emits (process_row srv args base_url ws_slug project_id headers i row v)
        Pe not_offline.
Proof.
  unfold process_row. cbv zeta. destruct (negb _); [emit|].
  apply emits_bind; [apply emits_build_payload|]. intros [payload v1].
  destruct (dry_run args || offline args); [emit|].
  apply emits_try_except; [|intros e; emit].
  unfold create_issue. apply emits_bind; [emit|]. intros resp.
  apply emits_try_except; [|intros e; emit].
  apply emits_bind; [emit|]. intros _.
  apply emits_bind; [|emit]. destruct (Qlt_le_dec 0 (rate_limit args)); emit.
Qed.

Lemma emits_rows_loop (args : Args) (i : nat) (rows : list Row)
    (v : Locals) :
  emits (rows_loop srv args base_url ws_slug project_id headers i rows v)
        Pe not_offline.
Proof.
  revert i v. induction rows as [|row rest IH]; intros i v; simpl; [emit|].
  apply emits_bind; [apply emits_process_row|]. intros v1. apply IH.
Qed.

Lemma emits_main_rows (args : Args) (reader : Reader) (v : Locals) :
  emits
    (match fieldnames reader with
     | None => raise (TypeError "argument of type 'NoneType' is not iterable")
     | Some present =>
         (if in_tuple "Summary" present then ret tt
          else (print (FatalColumn "Summary" present) ;;
                raise (SystemExit 2))) ;;
         v <- rows_loop srv args base_url ws_slug project_id headers 1
                        (rows reader) v ;;
         print (DoneLine (created_count v) (skipped v) (failures v))
     end)
    Pe not_offline.
Proof.
  destruct (fieldnames reader) as [present|]; [|emit].
  apply emits_bind; [destruct (in_tuple _ _); emit|]. intros _.
  apply emits_bind; [apply emits_rows_loop|]. intros v1. emit.
Qed.

Lemma emits_main_tail (args : Args) (reader : Reader) :
  emits
    (label_cache <- list_labels srv base_url ws_slug project_id headers ;;
     state_cache <- list_states srv base_url ws_slug project_id headers ;;
     match fieldnames reader with
     | None => raise (TypeError "argument of type 'NoneType' is not iterable")
     | Some present =>
         (if in_tuple "Summary" present then ret tt
          else (print (FatalColumn "Summary" present) ;;
                raise (SystemExit 2))) ;;
         v <- rows_loop srv args base_url ws_slug project_id headers 1
                        (rows reader)
                        (mkLocals label_cache state_cache 0 0 0) ;;
         print (DoneLine (created_count v) (skipped v) (failures v))
     end)
    Pe not_offline.
Proof.
  apply emits_bind; [apply emits_list_labels|]. intros lc.
  apply emits_bind; [apply emits_list_states|]. intros sc.
  apply emits_main_rows.
Qed.

End RunEmits.

Section MainEmits.

Context {W : Type} (srv : Server W).

Lemma emits_env (environ : gmap string string) (name : string) :
  emits (env (W:=W) environ name) any_event not_offline.
Proof.
  unfold env. cbv zeta. destruct (truthy _); [apply emits_ret|].
  apply emits_bind; [now apply emits_print | intros _; apply emits_raise].
Qed.

Lemma emits_resolve_project_id (base_url ws_slug : string)
    (headers : Headers) (want : string) :
  emits (resolve_project_id srv base_url ws_slug headers want)
        any_event not_offline.
Proof.
  unfold resolve_project_id. cbv zeta.
  apply emits_bind; [now apply emits_get|].
  intros results. destruct (looks_like_uuid _); [apply emits_ret|].
  destruct (scan_projects _ _); [apply emits_ret | apply emits_raise].
Qed.

Lemma emits_main (environ : gmap string string) (args : Args)
    (reader : Reader) :
  emits (main srv environ args reader) any_event not_offline.
Proof.
  unfold main. cbv zeta.
  apply emits_bind; [apply emits_env | intros base_url].
  apply emits_bind; [apply emits_env | intros ws_slug].
  apply emits_bind; [apply emits_env | intros project_id].
  apply emits_bind.
  { apply emits_try_except.
    - apply emits_bind; [apply emits_raise|]. intros h.
      apply emits_resolve_project_id.
    - intros e. apply emits_bind; [now apply emits_print|].
      intros _. apply emits_ret. }
  intros project_id'.
  apply emits_bind; [apply emits_env | intros api_key].
  now apply emits_main_tail.
Qed.

End MainEmits.

(** X8: whatever the flags, the server and the rows, a run of [main] only
    adds to the trace and to the output, and no [OFFLINE] line is ever
    printed: the two branches that would print one sit under a test of
    [args.offline] that is only reached when [args.offline] is false. *)
Theorem offline_lines_never_printed {W : Type} (srv : Server W)
    (environ : gmap string string) (args : Args) (reader : Reader)
    (s : St W) :
  exists t l,
    trace (fst (main srv environ args reader s)) = trace s ++ t /\
    out (fst (main srv environ args reader s)) = out s ++ l /\
    Forall (fun x => is_offline_line x = false) l.
Proof.
  destruct (emits_main srv environ args reader s)
    as (t & l & Et & El & _ & Fl).
  exists t, l. now repeat split.
Qed.

Lemma main_after_environment {W : Type} (srv : Server W)
    (environ : gmap string string) (args : Args) (reader : Reader)
    (s : St W) :
  env_present environ "PLANE_BASE_URL"
  && env_present environ "PLANE_WORKSPACE_SLUG"
  && env_present environ "PLANE_PROJECT_ID"
  && env_present environ "PLANE_API_KEY" = true ->
  let base_url := strip (default EmptyString (environ !! "PLANE_BASE_URL")) in
  let ws_slug :=
    strip (default EmptyString (environ !! "PLANE_WORKSPACE_SLUG")) in
  let project_id :=
    strip (default EmptyString (environ !! "PLANE_PROJECT_ID")) in
  let headers :=
    plane_headers (strip (default EmptyString (environ !! "PLANE_API_KEY"))) in
  main srv environ args reader s =
  (label_cache <- list_labels srv base_url ws_slug project_id headers ;;
   state_cache <- list_states srv base_url ws_slug project_id headers ;;
   match fieldnames reader with
   | None => raise (TypeError "argument of type 'NoneType' is not iterable")
   | Some present =>
       (if in_tuple "Summary" present then ret tt
        else (print (FatalColumn "Summary" present) ;;
              raise (SystemExit 2))) ;;
       v <- rows_loop srv args base_url ws_slug project_id headers 1
                      (rows reader) (mkLocals label_cache state_cache 0 0 0) ;;
       print (DoneLine (created_count v) (skipped v) (failures v))
   end)
    (mkSt (world s) (trace s)
          (out s ++ [WarnProject (UnboundLocalError "headers")])).
Proof.
  intros present base_url ws_slug project_id headers.
  apply andb_prop in present as [H123 H4].
  apply andb_prop in H123 as [H12 H3].
  apply andb_prop in H12 as [H1 H2].
  unfold main. cbv zeta.
  unfold bind at 1. rewrite env_run, H1.
  unfold bind at 1. rewrite env_run, H2.
  unfold bind at 1. rewrite env_run, H3.
  unfold bind at 1. unfold try_except, read_local, bind at 1, raise.
  cbn [is_Exception]. unfold bind at 1, print, ret. cbn [fst snd].
  unfold bind at 1. rewrite env_run, H4. reflexivity.
Qed.

Lemma bind_assoc {W A B C} (c : M W A) (f : A -> M W B) (k : B -> M W C)
    (s : St W) :
  bind (bind c f) k s = bind c (fun a => bind (f a) k) s.
Proof. unfold bind. now destruct (c s) as [s1 [e|a]]. Qed.

Lemma first_request_is_get {W A B} (srv : Server W) (Pe : Event -> Prop)
    (url : string) (headers : Headers) (f : list Obj -> M W A)
    (k : A -> M W B) :
  (forall data, emits (f data) Pe not_offline) ->
  (forall a, emits (k a) Pe not_offline) ->
  forall s, exists t l,
    trace (fst (bind (bind (get srv url headers) f) k s)) =
      trace s ++ EGet url headers :: t /\
    out (fst (bind (bind (get srv url headers) f) k s)) = out s ++ l /\
    Forall Pe t.
Proof.
  intros Hf Hk s.
  pose proof (fun data w1 =>
                emits_bind Pe not_offline (f data) k (Hf data) Hk
                  (mkSt w1 (trace s ++ [EGet url headers]) (out s))) as H.
  unfold bind in H |- *. unfold get.
  destruct (srv_get srv url headers (world s)) as [w1 [e|data]].
  - exists [], []. simpl. now rewrite List.app_nil_r.
  - destruct (H data w1) as (t & l & Et & El & Ft & _).
    exists t, l. simpl in *. rewrite Et, El.
    now rewrite <- List.app_assoc.
Qed.

Lemma append_inj_l (a y z : string) : a +:+ y = a +:+ z -> y = z.
Proof.
  induction a as [|c a IH]; [now rewrite !append_nil_l|].
  rewrite !append_cons. intros E. injection E as E. now apply IH.
Qed.

Lemma append_not_self (a y : string) : truthy y = true -> a +:+ y <> a.
Proof.
  intros Hy E. induction a as [|c a IH].
  - rewrite append_nil_l in E. now subst y.
  - rewrite append_cons in E. injection E as E. now apply IH.
Qed.

Lemma project_url_not_listing (base_url ws_slug project_id tail : string) :
  truthy tail = true ->
  base_url +:+ "/api/v1/workspaces/" +:+ ws_slug +:+ "/projects/"
  +:+ project_id +:+ tail <> projects_url base_url ws_slug.
Proof.
  intros Htail E. unfold projects_url in E.
  apply append_inj_l, append_inj_l, append_inj_l in E.
  revert E. apply append_not_self.
  destruct project_id; [exact Htail | reflexivity].
Qed.

Lemma run_traffic_not_listing (base_url ws_slug project_id : string)
    (headers : Headers) (e : Event) :
  run_traffic base_url ws_slug project_id headers e ->
  request_url e <> Some (projects_url base_url ws_slug).
Proof.
  destruct e as [url h|url h j|q]; cbn [run_traffic request_url];
    [intros (_ & [-> | ->]) | intros (_ & [-> | [-> | ->]]) | discriminate];
    intros E; injection E as E; revert E;
    now apply project_url_not_listing.
Qed.

(** X9: with the four variables set, [main] never asks for the list of
    projects: the call of [resolve_project_id] fails before it starts
    because [headers] is not assigned yet, and the warning is the first
    line printed.  The first request of the run is the listing of the
    labels of the project named by [PLANE_PROJECT_ID] as it is given;
    every later request lists or creates labels or states of that project
    or creates an issue in it; and no request of the whole run goes to the
    address of the project listing. *)
Theorem main_uses_project_id_as_given {W : Type} (srv : Server W)
    (environ : gmap string string) (args : Args) (reader : Reader)
    (s : St W) :
  env_present environ "PLANE_BASE_URL"
  && env_present environ "PLANE_WORKSPACE_SLUG"
  && env_present environ "PLANE_PROJECT_ID"
  && env_present environ "PLANE_API_KEY" = true ->
  exists t l,
    trace (fst (main srv environ args reader s)) =
      trace s ++
      EGet (labels_url
              (strip (default EmptyString (environ !! "PLANE_BASE_URL")))
              (strip (default EmptyString
                        (environ !! "PLANE_WORKSPACE_SLUG")))
              (strip (default EmptyString (environ !! "PLANE_PROJECT_ID"))))
           (plane_headers
              (strip (default EmptyString (environ !! "PLANE_API_KEY"))))
      :: t /\
    out (fst (main srv environ args reader s)) =
      out s ++ WarnProject (UnboundLocalError "headers") :: l /\
    Forall (run_traffic
              (strip (default EmptyString (environ !! "PLANE_BASE_URL")))
              (strip (default EmptyString
                        (environ !! "PLANE_WORKSPACE_SLUG")))
              (strip (default EmptyString (environ !! "PLANE_PROJECT_ID")))
              (plane_headers
                 (strip (default EmptyString (environ !! "PLANE_API_KEY")))))
           t /\
    forall e,
      In e (skipn (length (trace s))
                  (trace (fst (main srv environ args reader s)))) ->
      request_url e <>
      Some (projects_url
              (strip (default EmptyString (environ !! "PLANE_BASE_URL")))
              (strip (default EmptyString
                        (environ !! "PLANE_WORKSPACE_SLUG")))).
Proof.
  intros Hpresent. rewrite (main_after_environment srv _ _ _ _ Hpresent).
  cbv zeta. unfold list_labels.
  set (base_url := strip (default EmptyString (environ !! "PLANE_BASE_URL"))).
  set (ws_slug :=
         strip (default EmptyString (environ !! "PLANE_WORKSPACE_SLUG"))).
  set (project_id :=
         strip (default EmptyString (environ !! "PLANE_PROJECT_ID"))).
  set (headers :=
         plane_headers
           (strip (default EmptyString (environ !! "PLANE_API_KEY")))).
  assert (Hgl : run_traffic base_url ws_slug project_id headers
                  (EGet (labels_url base_url ws_slug project_id) headers))
    by (cbn; auto).
  assert (Hgs : run_traffic base_url ws_slug project_id headers
                  (EGet (states_url base_url ws_slug project_id) headers))
    by (cbn; auto).
  assert (Hpl : forall j, run_traffic base_url ws_slug project_id headers
                  (EPost (labels_url base_url ws_slug project_id) headers j))
    by (intros j; cbn; auto).
  assert (Hps : forall j, run_traffic base_url ws_slug project_id headers
                  (EPost (states_url base_url ws_slug project_id) headers j))
    by (intros j; cbn; auto).
  assert (Hpi : forall j, run_traffic base_url ws_slug project_id headers
                  (EPost (issues_url base_url ws_slug project_id) headers j))
    by (intros j; cbn; auto).
  assert (Hsl : forall q, run_traffic base_url ws_slug project_id headers
                  (ESleep q)) by (intros q; exact I).
  match goal with
  | |- context [bind (bind (get srv ?url ?h) ?f) ?k ?st] =>
      destruct (first_request_is_get srv
                  (run_traffic base_url ws_slug project_id headers)
                  url h f k) with (s := st)
        as (t & l & Et & El & Ft)
  end.
  - intros data. apply emits_ret.
  - intros lc.
    apply emits_bind;
      [now apply emits_list_states|]. intros sc.
    now apply emits_main_rows.
  - exists t, l. rewrite Et, El. cbn [trace out].
    split; [reflexivity|]. split; [now rewrite <- !List.app_assoc|].
    split; [exact Ft|]. intros e.
    rewrite List.skipn_app, List.skipn_all, Nat.sub_diag. cbn [skipn app].
    intros [<- | He].
    + now apply (run_traffic_not_listing base_url ws_slug project_id headers).
    + apply (run_traffic_not_listing base_url ws_slug project_id headers).
      now apply (proj1 (List.Forall_forall _ _) Ft).
Qed.

Lemma main_uses_project_id_as_given_witness :
  exists t l,
    trace (fst (main (Mock.server true Mock.accepts_all) Mock.environ
                     Mock.live {| fieldnames := Some ["Summary"];
                                  rows := [] |} Mock.start)) =
      trace Mock.start ++
      EGet (labels_url "https://plane.test" "ws" "proj") (plane_headers "key")
      :: t /\
    out (fst (main (Mock.server true Mock.accepts_all) Mock.environ
                   Mock.live {| fieldnames := Some ["Summary"];
                                rows := [] |} Mock.start)) =
      out Mock.start ++ WarnProject (UnboundLocalError "headers") :: l /\
    Forall (run_traffic "https://plane.test" "ws" "proj"
                        (plane_headers "key")) t /\
    forall e,
      In e (skipn (length (trace Mock.start))
              (trace (fst (main (Mock.server true Mock.accepts_all)
                                Mock.environ Mock.live
                                {| fieldnames := Some ["Summary"];
                                   rows := [] |} Mock.start)))) ->
      request_url e <> Some (projects_url "https://plane.test" "ws").
Proof.
  exact (main_uses_project_id_as_given (Mock.server true Mock.accepts_all)
           Mock.environ Mock.live
           {| fieldnames := Some ["Summary"]; rows := [] |} Mock.start
           eq_refl).
Defined.

(** X10: when the header of the CSV file has no column named [Summary]
    (the comparison is exact), [main] leaves with [SystemExit 2] after it
    has loaded the two caches and printed the fatal line: no row is
    looked at and nothing is created. *)
Theorem main_needs_summary_column {W : Type} (srv : Server W)
    (environ : gmap string string) (args : Args) (reader : Reader)
    (s : St W) (present : list string) (w1 w2 : W) (labels states : list Obj) :
  env_present environ "PLANE_BASE_URL"
  && env_present environ "PLANE_WORKSPACE_SLUG"
  && env_present environ "PLANE_PROJECT_ID"
  && env_present environ "PLANE_API_KEY" = true ->
  fieldnames reader = Some present ->
  ~ In "Summary" present ->
  let base_url := strip (default EmptyString (environ !! "PLANE_BASE_URL")) in
  let ws_slug :=
    strip (default EmptyString (environ !! "PLANE_WORKSPACE_SLUG")) in
  let project_id :=
    strip (default EmptyString (environ !! "PLANE_PROJECT_ID")) in
  let headers :=
    plane_headers (strip (default EmptyString (environ !! "PLANE_API_KEY"))) in
  srv_get srv (labels_url base_url ws_slug project_id) headers (world s) =
    (w1, inr labels) ->
  srv_get srv (states_url base_url ws_slug project_id) headers w1 =
    (w2, inr states) ->
  main srv environ args reader s =
  (mkSt w2
        (trace s ++ [EGet (labels_url base_url ws_slug project_id) headers;
                     EGet (states_url base_url ws_slug project_id) headers])
        (out s ++ [WarnProject (UnboundLocalError "headers");
                   FatalColumn "Summary" present]),
   inl (SystemExit 2)).
Proof.
  intros Hpresent Hfields Hcol base_url ws_slug project_id headers Hl Hs.
  rewrite (main_after_environment srv _ _ _ _ Hpresent). cbv zeta.
  fold base_url ws_slug project_id headers.
  unfold list_labels, list_states, bind, get, ret. cbn [world trace out].
  rewrite Hl. cbn [world trace out]. rewrite Hs, Hfields.
  apply in_tuple_not_In in Hcol. rewrite Hcol.
  unfold print, raise. cbn [world trace out].
  now rewrite <- !List.app_assoc.
Qed.

Lemma main_needs_summary_column_witness :
  main (Mock.server true Mock.accepts_all) Mock.environ Mock.live
       {| fieldnames := Some ["summary"; "Status"];
          rows := [ {[ "summary" := "Fix login" ]} ] |} Mock.start =
  (mkSt (Mock.mkWorld [] 0)
        ([] ++ [EGet (labels_url "https://plane.test" "ws" "proj")
                     (plane_headers "key");
                EGet (states_url "https://plane.test" "ws" "proj")
                     (plane_headers "key")])
        ([] ++ [WarnProject (UnboundLocalError "headers");
                FatalColumn "Summary" ["summary"; "Status"]]),
   inl (SystemExit 2)).
Proof.
  apply (main_needs_summary_column (Mock.server true Mock.accepts_all)
           Mock.environ Mock.live
           {| fieldnames := Some ["summary"; "Status"];
              rows := [ {[ "summary" := "Fix login" ]} ] |} Mock.start
           ["summary"; "Status"] (Mock.mkWorld [] 0) (Mock.mkWorld [] 0)
           [] []).
  - reflexivity.
  - reflexivity.
  - simpl. intros [H|[H|[]]]; discriminate.
  - reflexivity.
  - reflexivity.
Defined.

(** ** Rows in a live run *)







(** ** [--offline] and [--dry-run] *)

Section SameMode.

Context {W : Type} (srv : Server W).
Variables (args args' : Args).
Hypothesis same : same_mode args args'.

Lemma bind_ext {A B} (c c' : M W A) (k k' : A -> M W B) (s : St W) :
  (forall s0, c s0 = c' s0) -> (forall a s0, k a s0 = k' a s0) ->
  bind c k s = bind c' k' s.
Proof.
  intros Hc Hk. unfold bind. rewrite Hc.
  destruct (c' s) as [s1 [e|a]]; [reflexivity | apply Hk].
Qed.

Lemma resolve_state_same_mode (base_url ws_slug project_id : string)
    (headers : Headers) (t : string) (cache : gmap string Obj) (s : St W) :
  resolve_state srv args base_url ws_slug project_id headers t cache s =
  resolve_state srv args' base_url ws_slug project_id headers t cache s.
Proof.
  destruct same as (Hm & _ & _ & Hs & _).
  unfold resolve_state. cbv zeta. rewrite <- Hs.
  destruct (negb _ && negb _); [|reflexivity].
  rewrite <- Hm. destruct (dry_run args || offline args) eqn:Hmode;
    [reflexivity|].
  symmetry in Hm. apply orb_false_elim in Hm as [_ ->].
  apply orb_false_elim in Hmode as [_ ->]. reflexivity.
Qed.

Lemma resolve_label_same_mode (base_url ws_slug project_id : string)
    (headers : Headers) (lbl : string) (cache : gmap string Obj) (s : St W) :
  resolve_label srv args base_url ws_slug project_id headers lbl cache s =
  resolve_label srv args' base_url ws_slug project_id headers lbl cache s.
Proof.
  destruct same as (Hm & _ & Hl & _ & _).
  unfold resolve_label. cbv zeta. rewrite <- Hl.
  destruct (negb _ && negb _); [|reflexivity].
  rewrite <- Hm. destruct (dry_run args || offline args) eqn:Hmode;
    [reflexivity|].
  symmetry in Hm. apply orb_false_elim in Hm as [_ ->].
  apply orb_false_elim in Hmode as [_ ->]. reflexivity.
Qed.

Lemma labels_loop_same_mode (base_url ws_slug project_id : string)
    (headers : Headers) (labels label_ids : list string)
    (cache : gmap string Obj) (s : St W) :
  labels_loop srv args base_url ws_slug project_id headers labels
              label_ids cache s =
  labels_loop srv args' base_url ws_slug project_id headers labels
              label_ids cache s.
Proof.
  revert label_ids cache s.
  induction labels as [|lbl rest IH]; intros label_ids cache s;
    [reflexivity|].
  simpl. apply bind_ext; [intros; apply resolve_label_same_mode|].
  intros [o c] s0. apply IH.
Qed.

Lemma build_payload_same_mode (base_url ws_slug project_id : string)
    (headers : Headers) (row : Row) (name : string) (v : Locals) (s : St W) :
  build_payload srv args base_url ws_slug project_id headers row name v s =
  build_payload srv args' base_url ws_slug project_id headers row name v s.
Proof.
  pose proof same as (_ & Hsep & _).
  unfold build_payload. cbv zeta. rewrite <- Hsep.
  apply bind_ext; [reflexivity|]. intros labels s0.
  apply bind_ext.
  - intros s1. destruct (map_state _) as [t|]; [|reflexivity].
    destruct (truthy t); [|reflexivity].
    apply bind_ext; [intros; apply resolve_state_same_mode | reflexivity].
  - intros [payload sc] s1.
    apply bind_ext; [intros; apply labels_loop_same_mode | reflexivity].
Qed.

Lemma process_row_same_mode (base_url ws_slug project_id : string)
    (headers : Headers) (i : nat) (row : Row) (v : Locals) (s : St W) :
  process_row srv args base_url ws_slug project_id headers i row v s =
  process_row srv args' base_url ws_slug project_id headers i row v s.
Proof.
  pose proof same as (Hm & _ & _ & _ & Hr).
  unfold process_row. cbv zeta. destruct (negb _); [reflexivity|].
  apply bind_ext; [intros; apply build_payload_same_mode|].
  intros [payload v1] s0. now rewrite <- Hm, <- Hr.
Qed.

Lemma rows_loop_same_mode (base_url ws_slug project_id : string)
    (headers : Headers) (i : nat) (rows : list Row) (v : Locals) (s : St W) :
  rows_loop srv args base_url ws_slug project_id headers i rows v s =
  rows_loop srv args' base_url ws_slug project_id headers i rows v s.
Proof.
  revert i v s. induction rows as [|row rest IH]; intros i v s;
    [reflexivity|].
  simpl. apply bind_ext; [intros; apply process_row_same_mode|].
  intros v1 s0. apply IH.
Qed.

Lemma main_same_mode (environ : gmap string string) (reader : Reader)
    (s : St W) :
  main srv environ args reader s = main srv environ args' reader s.
Proof.
  unfold main. cbv zeta.
  repeat (apply bind_ext; [reflexivity|]; intros ? ?).
  destruct (fieldnames reader) as [present|]; [|reflexivity].
  apply bind_ext; [reflexivity|]. intros _ ?.
  apply bind_ext; [intros; apply rows_loop_same_mode | reflexivity].
Qed.

End SameMode.

(** X13: a run depends on [--dry-run] and [--offline] only through
    whether one of them is given: two command lines that agree on that and
    on the other flags give the same run, request for request and line
    for line; so [--offline] alone runs as [--dry-run] alone does, the two
    listing requests at the start included.  The delimiter of the CSV file
    plays no part once the rows are read. *)
Theorem offline_runs_as_dry_run {W : Type} (srv : Server W)
    (args args' : Args) (environ : gmap string string) (reader : Reader)
    (s : St W) :
  same_mode args args' ->
  main srv environ args reader s = main srv environ args' reader s.
Proof. intros H. now apply main_same_mode. Qed.

Lemma offline_runs_as_dry_run_witness :
  let off := {| delimiter := ";"; label_sep := ";"; dry_run := false;
                offline := true; no_create_labels := false;
                no_create_states := false; rate_limit := 0 |} in
  let reader := {| fieldnames := Some ["Summary"; "Status"];
                   rows := [ <["Status" := "Done"]>
                               {[ "Summary" := "Fix login" ]} ] |} in
  same_mode off Mock.dry /\
  main (Mock.server true Mock.accepts_all) Mock.environ off reader
       Mock.start =
  main (Mock.server true Mock.accepts_all) Mock.environ Mock.dry reader
       Mock.start.
Proof.
  intros off reader.
  assert (H : same_mode off Mock.dry) by (now repeat split).
  split; [exact H|].
  exact (offline_runs_as_dry_run (Mock.server true Mock.accepts_all)
           off Mock.dry Mock.environ reader Mock.start H).
Defined.

(** ** Runs that create no labels and no states *)

Section NoCreate.

Context {W : Type} (srv : Server W).
Variables (args : Args) (base_url ws_slug project_id : string).
Variable headers : Headers.
Hypothesis no_labels : no_create_labels args = true.
Hypothesis no_states : no_create_states args = true.

Lemma resolve_state_no_create (t : string) (cache : gmap string Obj)
    (E : exn -> Prop) :
  prints_only
    (resolve_state srv args base_url ws_slug project_id headers t cache)
    (fun r => r = (cache !! lower (strip t), cache)) E.
Proof.
  unfold resolve_state. cbv zeta. rewrite no_states, andb_false_r.
  now apply prints_only_ret.
Qed.

Lemma resolve_label_no_create (lbl : string) (cache : gmap string Obj)
    (E : exn -> Prop) :
  prints_only
    (resolve_label srv args base_url ws_slug project_id headers lbl cache)
    (fun r => r = (cache !! lower (strip lbl), cache)) E.
Proof.
  unfold resolve_label. cbv zeta. rewrite no_labels, andb_false_r.
  now apply prints_only_ret.
Qed.

Lemma labels_loop_no_create (labels label_ids : list string)
    (cache : gmap string Obj) (E : exn -> Prop) :
  prints_only
    (labels_loop srv args base_url ws_slug project_id headers labels
                 label_ids cache)
    (fun r => snd r = cache) E.
Proof.
  revert label_ids.
  induction labels as [|lbl rest IH]; intros label_ids; simpl.
  - now apply prints_only_ret.
  - eapply prints_only_bind; [apply resolve_label_no_create|].
    intros [o c] [= -> ->]. apply IH.
Qed.

Lemma build_payload_no_create (row : Row) (name : string) (v : Locals) :
  prints_only
    (build_payload srv args base_url ws_slug project_id headers row name v)
    (fun r => label_cache (snd r) = label_cache v /\
              state_cache (snd r) = state_cache v)
    (fun _ => truthy (label_sep args) = false).
Proof.
  unfold build_payload. cbv zeta.
  eapply prints_only_bind with (P := fun _ => True).
  { apply prints_only_lift.
    generalize (parse_labels_raises
      (Some (or_empty (py_or (row !! "Labels") (row !! "labels"))))
      (label_sep args)).
    destruct (parse_labels _ _); auto. }
  intros labels _.
  eapply prints_only_bind
    with (P := fun r : Json * gmap string Obj => snd r = state_cache v).
  { destruct (map_state _) as [t|]; [|now apply prints_only_ret].
    destruct (truthy t); [|now apply prints_only_ret].
    eapply prints_only_bind; [apply resolve_state_no_create|].
    intros [o c] [= -> ->]. now apply prints_only_ret. }
  intros [payload sc] Hsc. simpl in Hsc. subst sc.
  eapply prints_only_bind; [apply labels_loop_no_create|].
  intros [ids lc] Hlc. simpl in Hlc. subst lc.
  apply prints_only_ret. now split.
Qed.

Lemma process_row_no_create (i : nat) (row : Row) (v : Locals) :
  emits (process_row srv args base_url ws_slug project_id headers i row v)
        (issue_traffic (issues_url base_url ws_slug project_id)) any_line.
Proof.
  unfold process_row. cbv zeta. destruct (negb _).
  - apply emits_bind; [now apply emits_print | intros _; apply emits_ret].
  - apply emits_bind.
    { eapply prints_only_emits; [|apply build_payload_no_create].
      now intros l. }
    intros [payload v1]. destruct (dry_run args || offline args).
    + apply emits_bind; [now apply emits_print | intros _; apply emits_ret].
    + apply emits_try_except.
      * unfold create_issue.
        apply emits_bind; [now apply emits_post|]. intros resp.
        apply emits_try_except.
        -- apply emits_bind; [now apply emits_print|]. intros _.
           apply emits_bind; [|intros _; apply emits_ret].
           destruct (Qlt_le_dec 0 (rate_limit args));
             [now apply emits_sleep | apply emits_ret].
        -- intros e.
           apply emits_bind;
             [now apply emits_print | intros _; apply emits_ret].
      * intros e.
        apply emits_bind; [now apply emits_print | intros _; apply emits_ret].
Qed.

Lemma rows_loop_no_create (i : nat) (rows : list Row) (v : Locals) :
  emits (rows_loop srv args base_url ws_slug project_id headers i rows v)
        (issue_traffic (issues_url base_url ws_slug project_id)) any_line.
Proof.
  revert i v. induction rows as [|row rest IH]; intros i v; simpl.
  - apply emits_ret.
  - apply emits_bind; [apply process_row_no_create|]. intros v1. apply IH.
Qed.

End NoCreate.

(** X14: with [--no-create-labels] and [--no-create-states] both given,
    the rows of a run send nothing to the server but the POSTs that create
    issues, each followed by its pause if there is one: no listing is
    asked for and no label or state is created, whatever the rows hold. *)
Theorem no_create_rows_only_post_issues {W : Type} (srv : Server W)
    (args : Args) (base_url ws_slug project_id : string) (headers : Headers)
    (i : nat) (rows : list Row) (v : Locals) (s : St W) :
  no_create_labels args = true ->
  no_create_states args = true ->
  exists t,
    trace (fst (rows_loop srv args base_url ws_slug project_id headers
                          i rows v s)) = trace s ++ t /\
    Forall (issue_traffic (issues_url base_url ws_slug project_id)) t.
Proof.
  intros Hl Hs.
  destruct (rows_loop_no_create srv args base_url ws_slug project_id headers
              Hl Hs i rows v s) as (t & l & Et & _ & Ft & _).
  now exists t.
Qed.

Lemma no_create_rows_only_post_issues_witness :
  let srv := Mock.server true Mock.accepts_all in
  let args := {| delimiter := ","; label_sep := ";"; dry_run := false;
                 offline := false; no_create_labels := true;
                 no_create_states := true; rate_limit := 0 |} in
  let rows : list Row :=
    [ <["Labels" := "auth"]> (<["Status" := "Done"]>
        {[ "Summary" := "Fix login" ]}); {[ "Summary" := "Add tests" ]} ] in
  exists t,
    trace (fst (rows_loop srv args "b" "w" "p" ∅ 1 rows (mkLocals ∅ ∅ 0 0 0)
                          Mock.start)) = trace Mock.start ++ t /\
    Forall (issue_traffic (issues_url "b" "w" "p")) t.
Proof.
  intros srv args rows.
  exact (no_create_rows_only_post_issues srv args "b" "w" "p" ∅ 1 rows
           (mkLocals ∅ ∅ 0 0 0) Mock.start eq_refl eq_refl).
Defined.

(** X15: with an empty [--label-sep], a row that has a name and a
    [Labels] cell that is not empty stops the run, whatever the mode:
    splitting its labels raises [ValueError] before anything is printed or
    sent for the row, and nothing catches it. *)
Theorem empty_separator_stops_run {W : Type} (srv : Server W) (args : Args)
    (base_url ws_slug project_id : string) (headers : Headers)
    (i : nat) (row : Row) (rest : list Row) (v : Locals) (s : St W) :
  label_sep args = EmptyString ->
  has_name row = true ->
  truthy (or_empty (py_or (row !! "Labels") (row !! "labels"))) = true ->
  rows_loop srv args base_url ws_slug project_id headers i (row :: rest) v s =
  (s, inl (ValueError "empty separator")).
Proof.
  intros Hsep Hname Hlabels. simpl. apply bind_raise.
  unfold process_row. cbv zeta. unfold has_name in Hname.
  rewrite Hname. change (negb true) with false. cbv iota.
  apply bind_raise. unfold build_payload. cbv zeta. apply bind_raise.
  unfold lift, parse_labels. now rewrite Hlabels, Hsep.
Qed.

Lemma empty_separator_stops_run_witness :
  let args := {| delimiter := ","; label_sep := EmptyString; dry_run := true;
                 offline := false; no_create_labels := false;
                 no_create_states := false; rate_limit := 0 |} in
  rows_loop (Mock.server true Mock.accepts_all) args "b" "w" "p" ∅ 1
            [ <["labels" := "auth"]> {[ "Summary" := "Fix login" ]} ]
            (mkLocals ∅ ∅ 0 0 0) Mock.start =
  (Mock.start, inl (ValueError "empty separator")).
Proof.
  intros args.
  exact (empty_separator_stops_run (Mock.server true Mock.accepts_all) args
           "b" "w" "p" ∅ 1
           (<["labels" := "auth"]> {[ "Summary" := "Fix login" ]}) []
           (mkLocals ∅ ∅ 0 0 0) Mock.start eq_refl eq_refl eq_refl).
Defined.

(** ** Splitting *)

Section SplitFacts.

Lemma split_scan_nonempty (sep : string) (s : string) (k : nat) :
  split_scan sep k s <> [].
Proof.
  revert k. induction s as [|c s IH]; intros k; [discriminate|].
  cbn [split_scan]. destruct k as [|k]; [|apply IH].
  destruct (String.prefix sep (String c s)); [discriminate|].
  destruct (split_scan sep 0 s); discriminate.
Qed.

Lemma join_cons_head (sep : string) (c : ascii) (p : string)
    (ps : list string) :
  join sep (String c p :: ps) = String c (join sep (p :: ps)).
Proof. destruct ps; [reflexivity|]. simpl. now rewrite append_cons. Qed.

Lemma prefix_split (a s : string) :
  String.prefix a s = true -> exists rest, s = a +:+ rest.
Proof.
  revert s. induction a as [|c a IH]; intros s H; [now exists s|].
  destruct s as [|d s]; [discriminate|]. simpl in H.
  destruct (ascii_dec c d) as [->|]; [|discriminate].
  destruct (IH s H) as [rest ->]. exists rest. now rewrite append_cons.
Qed.

Lemma drop_app (a rest : string) : drop (String.length a) (a +:+ rest) = rest.
Proof.
  induction a as [|c a IH]; [now destruct rest|].
  rewrite append_cons. simpl. exact IH.
Qed.

Lemma join_split_scan (sep : string) :
  truthy sep = true ->
  forall s k, join sep (split_scan sep k s) = drop k s.
Proof.
  intros Hsep. induction s as [|c s IH]; intros k; [now destruct k|].
  cbn [split_scan]. destruct k as [|k]; [|apply IH].
  destruct (String.prefix sep (String c s)) eqn:Hp.
  - pose proof (IH (String.length sep - 1)) as Hrest.
    destruct (split_scan sep (String.length sep - 1) s) as [|p ps] eqn:E;
      [now destruct (split_scan_nonempty sep s _ E)|].
    change (join sep (EmptyString :: p :: ps))
      with (EmptyString +:+ sep +:+ join sep (p :: ps)).
    rewrite Hrest, append_nil_l.
    apply prefix_split in Hp as [rest Hs].
    destruct sep as [|a sep']; [discriminate|].
    rewrite append_cons in Hs. injection Hs as -> ->.
    replace (String.length (String a sep') - 1) with (String.length sep')
      by (simpl; lia).
    now rewrite drop_app, append_cons.
  - pose proof (IH 0) as Hrest.
    destruct (split_scan sep 0 s) as [|p ps] eqn:E;
      [now destruct (split_scan_nonempty sep s _ E)|].
    rewrite join_cons_head, Hrest. now destruct s.
Qed.

Lemma mem_char_lstrip (c : ascii) (s : string) :
  mem_char c s = false -> mem_char c (lstrip s) = false.
Proof.
  induction s as [|d s IH]; [reflexivity|]. intros H. simpl.
  destruct (py_isspace d); [|exact H]. apply IH. simpl in H.
  now destruct (Ascii.eqb c d).
Qed.

Lemma mem_char_rstrip (c : ascii) (s : string) :
  mem_char c s = false -> mem_char c (rstrip s) = false.
Proof.
  induction s as [|d s IH]; [reflexivity|]. intros H. simpl in H.
  destruct (Ascii.eqb c d) eqn:E; [discriminate|].
  rewrite rstrip_cons. specialize (IH H).
  destruct (rstrip s); [destruct (py_isspace d)|]; simpl; now rewrite ?E.
Qed.

Lemma mem_char_strip (c : ascii) (s : string) :
  mem_char c s = false -> mem_char c (strip s) = false.
Proof. intros H. unfold strip. now apply mem_char_rstrip, mem_char_lstrip. Qed.

Lemma split_scan_chars (sep : string) (c : ascii) (s : string) (k : nat) :
  mem_char c s = false ->
  Forall (fun p => mem_char c p = false) (split_scan sep k s).
Proof.
  revert k. induction s as [|d s IH]; intros k H; [now repeat constructor|].
  simpl in H. destruct (Ascii.eqb c d) eqn:E; [discriminate|].
  cbn [split_scan]. destruct k as [|k]; [|now apply IH].
  destruct (String.prefix sep (String d s)).
  - constructor; [reflexivity | now apply IH].
  - specialize (IH 0 H). destruct (split_scan sep 0 s) as [|p ps].
    + constructor; [simpl; now rewrite E | constructor].
    + inversion IH as [|? ? Hp Hps]; subst.
      constructor; [simpl; now rewrite E | exact Hps].
Qed.

Lemma split_scan_single (a : ascii) (s : string) :
  Forall (fun p => mem_char a p = false)
         (split_scan (String a EmptyString) 0 s).
Proof.
  induction s as [|d s IH]; [now repeat constructor|].
  cbn [split_scan]. simpl String.prefix.
  destruct (ascii_dec a d) as [->|Hne].
  - replace (String.prefix EmptyString s) with true by (now destruct s).
    constructor; [reflexivity | exact IH].
  - assert (E : Ascii.eqb a d = false) by (now apply Ascii.eqb_neq).
    destruct (split_scan (String a EmptyString) 0 s) as [|p ps].
    + constructor; [simpl; now rewrite E | constructor].
    + inversion IH as [|? ? Hp Hps]; subst.
      constructor; [simpl; now rewrite E | exact Hps].
Qed.

End SplitFacts.

(** X16: the splitting that [parse_labels] relies on loses nothing:
    joining the pieces of [s.split(sep)] with [sep] gives [s] back, and
    there is always one piece at least (the empty text gives one empty
    piece); an empty separator is refused. *)
Theorem split_join_round_trip (s sep : string) :
  (sep = EmptyString -> exists msg, split s sep = inl (ValueError msg)) /\
  (forall pieces,
      split s sep = inr pieces -> pieces <> [] /\ join sep pieces = s).
Proof.
  split.
  - intros ->. now eexists.
  - intros pieces H. unfold split in H.
    destruct sep as [|a sep']; [discriminate|]. injection H as <-.
    split; [apply split_scan_nonempty|].
    now rewrite join_split_scan.
Qed.

Lemma split_join_round_trip_witness :
  (exists msg, split "a;b" EmptyString = inl (ValueError msg)) /\
  split "a----b--c--" "--" =
    inr ["a"; EmptyString; "b"; "c"; EmptyString] /\
  join "--" ["a"; EmptyString; "b"; "c"; EmptyString] = "a----b--c--".
Proof.
  split.
  - destruct (split_join_round_trip "a;b" EmptyString) as [H _].
    now apply H.
  - split; [reflexivity|].
    destruct (split_join_round_trip "a----b--c--" "--") as [_ H].
    destruct (H ["a"; EmptyString; "b"; "c"; EmptyString] eq_refl)
      as [_ E].
    exact E.
Defined.

Lemma strip_pieces_chars (c : ascii) (pieces : list string) :
  Forall (fun p => mem_char c p = false) pieces ->
  Forall (fun p => mem_char c p = false)
         (List.filter truthy (List.map strip pieces)).
Proof.
  intros H. apply List.Forall_forall. intros p Hp.
  apply List.filter_In in Hp as [Hp _].
  apply List.in_map_iff in Hp as (x & <- & Hx).
  apply mem_char_strip. revert x Hx. now apply List.Forall_forall.
Qed.

(** X17: with a separator of one character, no label that [parse_labels]
    returns contains that character or a comma: what separates labels
    never ends up inside one. *)
Theorem labels_hold_no_separator (raw : option string) (a : ascii)
    (labels : list string) :
  parse_labels raw (String a EmptyString) = inr labels ->
  Forall (fun p => mem_char a p = false /\ mem_char "," p = false) labels.
Proof.
  unfold parse_labels. destruct raw as [r|]; [|intros [= <-]; constructor].
  destruct (truthy r); [|intros [= <-]; constructor].
  unfold split. intros [= <-].
  assert (Ha : Forall (fun p => mem_char a p = false)
                 (List.filter truthy
                    (List.map strip
                       (split_scan (String a EmptyString) 0
                          (replace_char "," (String a EmptyString) r))))).
  { apply strip_pieces_chars, split_scan_single. }
  destruct (Ascii.eqb "," a) eqn:E.
  - apply Ascii.eqb_eq in E. subst a.
    eapply List.Forall_impl; [|exact Ha]. now intros p Hp.
  - assert (Hc : Forall (fun p => mem_char "," p = false)
                   (List.filter truthy
                      (List.map strip
                         (split_scan (String a EmptyString) 0
                            (replace_char "," (String a EmptyString) r))))).
    { apply strip_pieces_chars, split_scan_chars, mem_char_replace.
      unfold mem_char. now rewrite E. }
    apply List.Forall_forall. intros p Hp. split.
    + revert p Hp. now apply List.Forall_forall.
    + revert p Hp. now apply List.Forall_forall.
Qed.

Lemma labels_hold_no_separator_witness :
  Forall (fun p => mem_char ";" p = false /\ mem_char "," p = false)
         ["a"; "b c"; "d"].
Proof.
  apply (labels_hold_no_separator (Some " a;; b c ,d; ") ";").
  reflexivity.
Defined.

(** ** The mapping tables *)

Lemma lookup_strip_table (table : gmap string string) (x : string) :
  table !! EmptyString = None ->
  (if truthy x then table !! strip x else None) =
  (if truthy (strip x) then table !! strip (strip x) else None).
Proof.
  intros Hempty. rewrite strip_idem.
  destruct (truthy x) eqn:Hx.
  - destruct (strip x) eqn:E; [exact Hempty | reflexivity].
  - destruct x; [reflexivity | discriminate].
Qed.

(** X18: the two tables are looked up by the value without the white
    space around it, letter for letter (the case counts), and an empty or
    blank value maps to nothing.  A priority maps to one of [urgent],
    [high], [medium], [low] or to nothing; a status maps to one of
    [Backlog], [Unstarted], [Started], [Completed] or to nothing, and the
    group inferred for such a state is [started] for [Started],
    [completed] for [Completed] and [backlog] for the other two. *)
Theorem mapping_tables :
  (forall x, map_priority (Some x) = map_priority (Some (strip x))) /\
  (forall x, map_state (Some x) = map_state (Some (strip x))) /\
  (forall x, all_space x = true ->
             map_priority (Some x) = None /\ map_state (Some x) = None) /\
  (forall x p, map_priority x = Some p ->
               In p ["urgent"; "high"; "medium"; "low"]) /\
  (forall x t, map_state x = Some t ->
               In (t, infer_state_group (Some t))
                  [("Backlog", "backlog"); ("Unstarted", "backlog");
                   ("Started", "started"); ("Completed", "completed")]) /\
  map_priority (Some "high") = None /\ map_state (Some "done") = None.
Proof.
  split; [|split; [|split; [|split; [|split; [|split]]]]];
    try reflexivity.
  - intros x. unfold map_priority. now apply lookup_strip_table.
  - intros x. unfold map_state. now apply lookup_strip_table.
  - intros x Hx. unfold map_priority, map_state, strip.
    rewrite <- (append_empty_r x), lstrip_all_space by exact Hx.
    now destruct (truthy (x +:+ EmptyString)).
  - intros x p. unfold map_priority, DEFAULT_PRIORITY_MAP.
    destruct x as [j|]; [|discriminate].
    destruct (truthy j); [|discriminate]. intros H.
    repeat (rewrite lookup_insert in H;
            destruct (decide _) in H; [injection H as <-; simpl; tauto|]).
    now rewrite lookup_empty in H.
  - intros x t. unfold map_state, DEFAULT_STATUS_TO_STATE.
    destruct x as [j|]; [|discriminate].
    destruct (truthy j); [|discriminate]. intros H.
    repeat (rewrite lookup_insert in H;
            destruct (decide _) in H;
            [injection H as <-; vm_compute; tauto|]).
    now rewrite lookup_empty in H.
Qed.

Lemma mapping_tables_witness :
  (map_priority (Some "   ") = None /\ map_state (Some "   ") = None) /\
  In "urgent" ["urgent"; "high"; "medium"; "low"] /\
  In ("Started", infer_state_group (Some "Started"))
     [("Backlog", "backlog"); ("Unstarted", "backlog");
      ("Started", "started"); ("Completed", "completed")].
Proof.
  destruct mapping_tables as (_ & _ & H3 & H4 & H5 & _).
  split; [apply H3; reflexivity|].
  split; [apply (H4 (Some " Highest ")); reflexivity|].
  apply (H5 (Some "In Review ")). reflexivity.
Defined.

(** ** A label or a state is created once in a run *)

Section Reuse.

Context {W : Type} (srv : Server W).
Variables (base_url ws_slug project_id : string) (headers : Headers).
Variable coll : W -> list Obj.

Lemma ensure_label_entry (name : string) (s s1 : St W) (o1 : Obj) :
  lists_what_it_creates srv (labels_url base_url ws_slug project_id)
                        headers coll ->
  ensure_label srv base_url ws_slug project_id headers name s = (s1, inr o1) ->
  by_name (coll (world s1)) !! norm_key (Some name) = Some o1.
Proof.
  intros [Hget Hpost] H.
  destruct (Hget (world s)) as (w1 & Eg & Hc1).
  unfold ensure_label, list_labels, bind, get, ret in H.
  rewrite Eg in H. cbv zeta in H.
  destruct (by_name (coll (world s)) !! norm_key (Some name)) as [o|] eqn:Hk.
  - injection H as <- <-. simpl. now rewrite Hc1.
  - unfold post in H. simpl in H.
    pose proof (Hpost {[ "name" := JStr name ]} w1) as Hp.
    destruct (srv_post srv _ headers _ w1) as [w2 [e|o]]; [discriminate|].
    injection H as <- <-. destruct Hp as [Hc2 Hn]. simpl.
    rewrite Hc2, by_name_snoc, Hn, json_text_label_name.
    apply lookup_insert_eq.
Qed.

Lemma ensure_state_entry (name : string) (s s1 : St W) (o1 : Obj) :
  lists_what_it_creates srv (states_url base_url ws_slug project_id)
                        headers coll ->
  ensure_state srv base_url ws_slug project_id headers name s = (s1, inr o1) ->
  by_name (coll (world s1)) !! norm_key (Some name) = Some o1.
Proof.
  intros [Hget Hpost] H.
  destruct (Hget (world s)) as (w1 & Eg & Hc1).
  unfold ensure_state, list_states, bind, get, ret in H.
  rewrite Eg in H. cbv zeta in H.
  destruct (by_name (coll (world s)) !! norm_key (Some name)) as [o|] eqn:Hk.
  - injection H as <- <-. simpl. now rewrite Hc1.
  - unfold try_except, post in H. simpl in H.
    pose proof (Hpost (<["color" := JStr "#9ca3af"]> {[ "name" := JStr name ]})
                      w1) as Hp.
    destruct (srv_post srv _ headers _ w1) as [w2 [e|o]]; simpl in H.
    + pose proof (Hpost (<["group" := JStr (infer_state_group (Some name))]>
                           (<["color" := JStr "#9ca3af"]>
                              {[ "name" := JStr name ]})) w2) as Hq.
      destruct (srv_post srv _ headers _ w2) as [w3 [e2|o]]; simpl in H;
        [discriminate|].
      injection H as <- <-. destruct Hq as [Hc3 Hn]. simpl.
      rewrite Hc3, by_name_snoc, Hn.
      rewrite (json_text_state_name name
                 (Some (infer_state_group (Some name)))).
      apply lookup_insert_eq.
    + injection H as <- <-. destruct Hp as [Hc2 Hn]. simpl.
      rewrite Hc2, by_name_snoc, Hn.
      rewrite (json_text_state_name name None).
      apply lookup_insert_eq.
Qed.

Lemma named_entry_truthy (data : list Obj) (k : string) (o : Obj) :
  k <> EmptyString -> by_name data !! k = Some o ->
  obj_truthy (Some o) = true.
Proof.
  intros Hk H. apply by_name_lookup in H as [_ Hkey].
  unfold obj_truthy. destruct (decide (o = ∅)) as [->|Hne].
  - exfalso. apply Hk. rewrite <- Hkey. reflexivity.
  - now rewrite bool_decide_false.
Qed.

Lemma list_labels_reloads (s s1 : St W) (c : gmap string Obj) :
  lists_what_it_creates srv (labels_url base_url ws_slug project_id)
                        headers coll ->
  list_labels srv base_url ws_slug project_id headers s = (s1, inr c) ->
  c = by_name (coll (world s)).
Proof.
  intros [Hget _] H. destruct (Hget (world s)) as (w1 & Eg & _).
  unfold list_labels, bind, get, ret in H. rewrite Eg in H.
  now injection H as _ <-.
Qed.

Lemma list_states_reloads (s s1 : St W) (c : gmap string Obj) :
  lists_what_it_creates srv (states_url base_url ws_slug project_id)
                        headers coll ->
  list_states srv base_url ws_slug project_id headers s = (s1, inr c) ->
  c = by_name (coll (world s)).
Proof.
  intros [Hget _] H. destruct (Hget (world s)) as (w1 & Eg & _).
  unfold list_states, bind, get, ret in H. rewrite Eg in H.
  now injection H as _ <-.
Qed.

End Reuse.

(** X19: in a live run that may create labels and states, against a
    server whose listing shows a created entity from its creation on, a
    label (or a state) that has been resolved once is in the cache from
    then on: resolving the same name again returns the same entity without
    any request, so two rows, or two labels of one row, that name it
    create it once. *)
Theorem resolved_once_then_cached {W : Type} (srv : Server W) (args : Args)
    (base_url ws_slug project_id : string) (headers : Headers)
    (coll : W -> list Obj) (name : string) (cache cache1 : gmap string Obj)
    (x : option Obj) (s s1 : St W) :
  dry_run args || offline args = false ->
  lower (strip name) <> EmptyString ->
  (lists_what_it_creates srv (labels_url base_url ws_slug project_id)
                         headers coll ->
   no_create_labels args = false ->
   resolve_label srv args base_url ws_slug project_id headers name cache s =
     (s1, inr (x, cache1)) ->
   exists o,
     x = Some o /\ cache1 !! lower (strip name) = Some o /\
     forall s2,
       resolve_label srv args base_url ws_slug project_id headers name
                     cache1 s2 = (s2, inr (Some o, cache1))) /\
  (lists_what_it_creates srv (states_url base_url ws_slug project_id)
                         headers coll ->
   no_create_states args = false ->
   resolve_state srv args base_url ws_slug project_id headers name cache s =
     (s1, inr (x, cache1)) ->
   exists o,
     x = Some o /\ cache1 !! lower (strip name) = Some o /\
     forall s2,
       resolve_state srv args base_url ws_slug project_id headers name
                     cache1 s2 = (s2, inr (Some o, cache1))).
Proof.
  intros Hlive Hname. split; intros Hsrv Hflag H.
  - unfold resolve_label in H. cbv zeta in H.
    destruct (obj_truthy (cache !! lower (strip name))) eqn:Ht.
    + simpl in H. unfold ret in H. injection H as <- <- <-.
      destruct (cache !! lower (strip name)) as [o|] eqn:Hk; [|discriminate].
      exists o. split; [reflexivity|]. split; [reflexivity|]. intros s2.
      unfold resolve_label. cbv zeta. now rewrite Hk, Ht.
    + rewrite Hflag, Hlive in H. simpl in H.
      pose proof Hlive as Hoff. apply orb_false_elim in Hoff as [_ Hoff].
      rewrite Hoff in H.
      apply bind_inr in H as (sa & o & He & H).
      apply bind_inr in H as (sb & c & Hl & H).
      unfold ret in H. injection H as <- <- <-.
      apply (ensure_label_entry srv _ _ _ _ coll) in He; [|exact Hsrv].
      apply (list_labels_reloads srv _ _ _ _ coll) in Hl; [|exact Hsrv].
      subst c. change (norm_key (Some name)) with (lower (strip name)) in He.
      exists o. split; [reflexivity|]. split; [exact He|]. intros s2.
      unfold resolve_label. cbv zeta. rewrite He.
      now rewrite (named_entry_truthy _ _ _ Hname He).
  - unfold resolve_state in H. cbv zeta in H.
    destruct (obj_truthy (cache !! lower (strip name))) eqn:Ht.
    + simpl in H. unfold ret in H. injection H as <- <- <-.
      destruct (cache !! lower (strip name)) as [o|] eqn:Hk; [|discriminate].
      exists o. split; [reflexivity|]. split; [reflexivity|]. intros s2.
      unfold resolve_state. cbv zeta. now rewrite Hk, Ht.
    + rewrite Hflag, Hlive in H. simpl in H.
      pose proof Hlive as Hoff. apply orb_false_elim in Hoff as [_ Hoff].
      rewrite Hoff in H.
      apply bind_inr in H as (sa & o & He & H).
      apply bind_inr in H as (sb & c & Hl & H).
      unfold ret in H. injection H as <- <- <-.
      apply (ensure_state_entry srv _ _ _ _ coll) in He; [|exact Hsrv].
      apply (list_states_reloads srv _ _ _ _ coll) in Hl; [|exact Hsrv].
      subst c. change (norm_key (Some name)) with (lower (strip name)) in He.
      exists o. split; [reflexivity|]. split; [exact He|]. intros s2.
      unfold resolve_state. cbv zeta. rewrite He.
      now rewrite (named_entry_truthy _ _ _ Hname He).
Qed.

Lemma resolved_once_then_cached_witness :
  let srv := Mock.server true Mock.accepts_all in
  let r := resolve_label srv Mock.live "b" "w" "p" ∅ "Auth" ∅ Mock.start in
  exists x cache1 o,
    r = (fst r, inr (x, cache1)) /\
    x = Some o /\ cache1 !! lower (strip "Auth") = Some o /\
    forall s2,
      resolve_label srv Mock.live "b" "w" "p" ∅ "Auth" cache1 s2 =
      (s2, inr (Some o, cache1)).
Proof.
  intros srv r.
  destruct r as [s1 [e|[x cache1]]] eqn:E;
    [exfalso; vm_compute in E; discriminate|].
  destruct (resolved_once_then_cached srv Mock.live "b" "w" "p" ∅
              Mock.entities "Auth" ∅ cache1 x Mock.start s1 eq_refl)
    as [H _]; [discriminate|].
  destruct (H (mock_lists_what_it_creates _ _ _) eq_refl E)
    as (o & Hx & Hk & Hagain).
  exists x, cache1, o. now repeat split.
Defined.

(** ** The payload when nothing may be created *)

Section NoCreatePayload.

Context {W : Type} (srv : Server W).
Variables (args : Args) (base_url ws_slug project_id : string).
Variable headers : Headers.
Hypothesis no_labels : no_create_labels args = true.
Hypothesis no_states : no_create_states args = true.

Lemma resolve_state_cached (t : string) (cache : gmap string Obj)
    (s : St W) :
  resolve_state srv args base_url ws_slug project_id headers t cache s =
  (s, inr (cache !! lower (strip t), cache)).
Proof.
  unfold resolve_state. cbv zeta. now rewrite no_states, andb_false_r.
Qed.

Lemma labels_loop_cached (labels label_ids : list string)
    (cache : gmap string Obj) (s : St W) :
  labels_loop srv args base_url ws_slug project_id headers labels
              label_ids cache s =
  (s, inr (label_ids ++
           omap (fun lbl => usable_id (cache !! lower (strip lbl))) labels,
           cache)).
Proof.
  revert label_ids. induction labels as [|lbl rest IH]; intros label_ids.
  - simpl. unfold ret. now rewrite List.app_nil_r.
  - simpl. unfold bind, resolve_label. cbv zeta.
    rewrite no_labels, andb_false_r. unfold ret. rewrite IH.
    destruct (usable_id (cache !! lower (strip lbl))); simpl;
      [now rewrite <- List.app_assoc | reflexivity].
Qed.

End NoCreatePayload.

(** X20: with [--no-create-labels] and [--no-create-states] both given,
    building the payload of a row sends and prints nothing and leaves both
    caches as they are; the [state_id] of the payload, when there is one,
    is the id of the cache entry of the mapped state, and every id of
    [label_ids] is the id of the cache entry of a label of the row; a
    mapped state that the cache does not hold gives no [state_id]. *)
Theorem payload_from_caches_only {W : Type} (srv : Server W) (args : Args)
    (base_url ws_slug project_id : string) (headers : Headers)
    (row : Row) (name : string) (v v' : Locals) (payload : Json)
    (s s' : St W) :
  no_create_labels args = true ->
  no_create_states args = true ->
  build_payload srv args base_url ws_slug project_id headers row name v s =
    (s', inr (payload, v')) ->
  s' = s /\ label_cache v' = label_cache v /\
  state_cache v' = state_cache v /\
  (forall x, payload !! "state_id" = Some x ->
     exists t o id,
       map_state
         (Some (or_empty (py_or (row !! "Status") (row !! "status"))))
         = Some t /\
       state_cache v !! lower (strip t) = Some o /\
       obj_get o "id" = Some id /\ x = JStr id) /\
  (forall x, payload !! "label_ids" = Some x ->
     exists labels ids,
       parse_labels
         (Some (or_empty (py_or (row !! "Labels") (row !! "labels"))))
         (label_sep args) = inr labels /\
       x = JList ids /\ ids <> [] /\
       forall id, In id ids ->
         exists lbl o,
           In lbl labels /\ label_cache v !! lower (strip lbl) = Some o /\
           obj_get o "id" = Some id) /\
  (forall t,
     map_state (Some (or_empty (py_or (row !! "Status") (row !! "status"))))
       = Some t ->
     obj_truthy (state_cache v !! lower (strip t)) = false ->
     payload !! "state_id" = None).
Proof.
  intros Hl Hs H. unfold build_payload in H. cbv zeta in H.
  apply bind_inr in H as (sa & labels & Hparse & H).
  unfold lift in Hparse.
  assert (Hsa : sa = s) by (now injection Hparse).
  assert (Hlabels :
    parse_labels
      (Some (or_empty (py_or (row !! "Labels") (row !! "labels"))))
      (label_sep args) = inr labels).
  { apply (f_equal snd) in Hparse. exact Hparse. }
  clear Hparse. subst sa.
  apply bind_inr in H as (sb & [p1 sc] & Hstate & H).
  unfold bind in H. rewrite (labels_loop_cached srv args _ _ _ _ Hl) in H.
  unfold ret in H. cbn [app] in H. injection H as <- <- <-.
  match type of Hstate with
  | context [ret (?P, state_cache v)] => set (base := P) in Hstate
  end.
  assert (Hb1 : base !! "state_id" = None).
  { subst base. destruct (map_priority _) as [p|];
      try destruct (truthy p);
      destruct (truthy (or_empty (row !! "Description")));
      map_lookup; reflexivity. }
  assert (Hb2 : base !! "label_ids" = None).
  { subst base. destruct (map_priority _) as [p|];
      try destruct (truthy p);
      destruct (truthy (or_empty (row !! "Description")));
      map_lookup; reflexivity. }
  clearbody base.
  assert (Hp1 : sb = s /\ sc = state_cache v /\
      p1 =
      match map_state
              (Some (or_empty (py_or (row !! "Status") (row !! "status"))))
      with
      | Some t =>
          match usable_id (state_cache v !! lower (strip t)) with
          | Some id => <["state_id" := JStr id]> base
          | None => base
          end
      | None => base
      end).
  { destruct (map_state _) as [t|] eqn:Hmap.
    - rewrite (map_state_truthy _ _ Hmap) in Hstate.
      unfold bind in Hstate.
      rewrite (resolve_state_cached srv args _ _ _ _ Hs) in Hstate.
      unfold ret in Hstate. now injection Hstate as <- <- <-.
    - unfold ret in Hstate. now injection Hstate as <- <- <-. }
  destruct Hp1 as (-> & -> & ->).
  split; [reflexivity|]. split; [reflexivity|]. split; [reflexivity|].
  set (ids := omap (fun lbl => usable_id (label_cache v !! lower (strip lbl)))
                   labels).
  assert (Hids : forall id, In id ids ->
            exists lbl o, In lbl labels /\
              label_cache v !! lower (strip lbl) = Some o /\
              obj_get o "id" = Some id).
  { intros id Hin. apply list_elem_of_In in Hin.
    apply list_elem_of_omap in Hin as (lbl & Hlbl & Hu).
    apply list_elem_of_In in Hlbl.
    apply usable_id_spec in Hu as (o & Ho & Hid & _). eauto. }
  split; [|split].
  - intros x Hx.
    assert (Hx' :
      match map_state
              (Some (or_empty (py_or (row !! "Status") (row !! "status"))))
      with
      | Some t =>
          match usable_id (state_cache v !! lower (strip t)) with
          | Some id => Some (JStr id)
          | None => None
          end
      | None => None
      end = Some x).
    { rewrite <- Hx. destruct ids; destruct (map_state _) as [t|];
        try destruct (usable_id _); map_lookup;
        rewrite ?Hb1; reflexivity. }
    destruct (map_state _) as [t|]; [|discriminate].
    destruct (usable_id _) as [id|] eqn:Hu; [|discriminate].
    injection Hx' as <-.
    apply usable_id_spec in Hu as (o & Ho & Hid & _). eauto 8.
  - intros x Hx. exists labels, ids. split; [exact Hlabels|].
    fold ids in Hx. destruct ids as [|i0 rest] eqn:Eids.
    + exfalso. destruct (map_state _) as [t|];
        try destruct (usable_id _); revert Hx; map_lookup;
        rewrite ?Hb2; discriminate.
    + rewrite lookup_insert_eq in Hx. injection Hx as <-.
      split; [reflexivity|]. split; [discriminate | exact Hids].
  - intros t Hmap Habsent. rewrite Hmap.
    assert (Hu : usable_id (state_cache v !! lower (strip t)) = None).
    { unfold usable_id. destruct (state_cache v !! lower (strip t));
        [now rewrite Habsent | reflexivity]. }
    rewrite Hu. destruct ids; map_lookup; exact Hb1.
Qed.

Lemma payload_from_caches_only_witness :
  let srv := Mock.server true Mock.accepts_all in
  let args := {| delimiter := ","; label_sep := ";"; dry_run := false;
                 offline := false; no_create_labels := true;
                 no_create_states := true; rate_limit := 0 |} in
  let row : Row :=
    <["Labels" := "auth"]> (<["Status" := "Done"]>
      {[ "Summary" := "Fix login" ]}) in
  let r := build_payload srv args "b" "w" "p" ∅ row "Fix login"
                         (mkLocals ∅ ∅ 0 0 0) Mock.start in
  exists payload v',
    r = (Mock.start, inr (payload, v')) /\
    payload !! "state_id" = None.
Proof.
  intros srv args row r.
  destruct r as [s' [e|[payload v']]] eqn:E;
    [exfalso; vm_compute in E; discriminate|].
  destruct (payload_from_caches_only srv args "b" "w" "p" ∅ row "Fix login"
              (mkLocals ∅ ∅ 0 0 0) v' payload Mock.start s'
              eq_refl eq_refl E) as (-> & _ & _ & _ & _ & H).
  exists payload, v'. split; [reflexivity|].
  apply (H "Completed"); reflexivity.
Defined.
